(** * Orator query and schema grammars (MySQL and Postgres dialects)

    A shallow embedding of

      - [orator/query/grammars/mysql_grammar.py]     (module [MySQLQueryGrammar])
      - [orator/query/grammars/postgres_grammar.py]  (module [PostgresQueryGrammar])
      - [orator/schema/grammars/postgres_grammar.py] (module [PostgresSchemaGrammar])

    Python strings are [string]s whose characters are code points below 256,
    Python lists are [list]s, a dict is an association list in insertion
    order, and a method that calls [self.parameter] lives in the monad [G],
    which threads the ordered list of bound parameters and an exception. *)

From Stdlib Require Import String Ascii List ZArith Bool Arith Lia.
Import ListNotations.
Open Scope list_scope.
Open Scope string_scope.
Set Warnings "-register-all".

(** ** Python string primitives *)

Module Py.

(** [sep.join(l)] *)
Definition join (sep : string) (l : list string) : string := String.concat sep l.

(** [s.startswith(p)] *)
Definition startswith (p s : string) : bool := String.prefix p s.

(** [s.replace(old, new)] for a non-empty [old]: scanning from the left, every
    non-overlapping occurrence of [old] is replaced by [new].  [skip] counts
    the characters of an occurrence that are still to be dropped. *)
Fixpoint replace_from (old new : string) (skip : nat) (s : string) : string :=
  match s with
  | EmptyString => EmptyString
  | String c s' =>
      match skip with
      | S k => replace_from old new k s'
      | O =>
          if startswith old s
          then new ++ replace_from old new (String.length old - 1) s'
          else String c (replace_from old new 0 s')
      end
  end.

Definition replace (old new s : string) : string := replace_from old new 0 s.

(** [c.isspace()] on code points below 256: TAB, LF, VT, FF, CR, the four
    separators FS, GS, RS, US, the space, NEL and the no-break space. *)
Definition isspace (c : ascii) : bool :=
  let n := nat_of_ascii c in
  ((9 <=? n)%nat && (n <=? 13)%nat) || ((28 <=? n)%nat && (n <=? 32)%nat)
  || (n =? 133)%nat || (n =? 160)%nat.

(** [s.lstrip()], [s.rstrip()] and [s.strip()] *)
Fixpoint lstrip (s : string) : string :=
  match s with
  | EmptyString => EmptyString
  | String c s' => if isspace c then lstrip s' else s
  end.

Fixpoint rstrip (s : string) : string :=
  match s with
  | EmptyString => EmptyString
  | String c s' =>
      match rstrip s' with
      | EmptyString => if isspace c then EmptyString else String c EmptyString
      | r => String c r
      end
  end.

Definition strip (s : string) : string := rstrip (lstrip s).

(** [c.lower()] on ASCII letters, and [s.lower()] *)
Definition lower_char (c : ascii) : ascii :=
  let n := nat_of_ascii c in
  if (65 <=? n)%nat && (n <=? 90)%nat then ascii_of_nat (n + 32) else c.

Fixpoint lower (s : string) : string :=
  match s with
  | EmptyString => EmptyString
  | String c s' => String (lower_char c) (lower s')
  end.

(** [s[n:]] *)
Fixpoint drop (n : nat) (s : string) : string :=
  match n, s with
  | O, _ => s
  | S k, EmptyString => EmptyString
  | S k, String _ s' => drop k s'
  end.

(** [x in l] for a list of strings *)
Definition contains (x : string) (l : list string) : bool :=
  existsb (String.eqb x) l.

(** The first and the last character of a string. *)
Definition first_char (s : string) : option ascii :=
  match s with
  | EmptyString => None
  | String c _ => Some c
  end.

Fixpoint last_char (s : string) : option ascii :=
  match s with
  | EmptyString => None
  | String c EmptyString => Some c
  | String _ s' => last_char s'
  end.

(** A string has clean edges when neither its first nor its last character
    is white space. *)
Definition space_opt (o : option ascii) : bool :=
  match o with
  | None => false
  | Some c => isspace c
  end.

Definition clean_edges (s : string) : Prop :=
  space_opt (first_char s) = false /\ space_opt (last_char s) = false.

(** Python values that reach the grammars: [None], booleans, integers,
    strings, lists and [QueryExpression] objects (raw SQL fragments). *)
Inductive value : Type :=
  | VNone
  | VBool (b : bool)
  | VInt (z : Z)
  | VStr (s : string)
  | VList (l : list value)
  | VExpr (raw : string).

(** [bool(v)]: the truth value Python gives to [v] in [if v:]. *)
Definition truthy (v : value) : bool :=
  match v with
  | VNone => false
  | VBool b => b
  | VInt z => negb (z =? 0)%Z
  | VStr s => negb (s =? "")
  | VList l => match l with [] => false | _ => true end
  | VExpr _ => true
  end.

(** [isinstance(v, basestring)] *)
Definition is_basestring (v : value) : bool :=
  match v with
  | VStr _ => true
  | _ => false
  end.

(** [v is True] and [v is False]: identity with the two boolean singletons. *)
Definition is_True (v : value) : bool :=
  match v with
  | VBool true => true
  | _ => false
  end.

Definition is_False (v : value) : bool :=
  match v with
  | VBool false => true
  | _ => false
  end.

(** A dict in insertion order, with [d.keys()] and [d.values()]. *)
Definition dict : Type := list (string * value).

Definition keys (d : dict) : list string := map fst d.
Definition values (d : dict) : list value := map snd d.

End Py.

Import Py.

(** [s.lower()] on code points below 256: the capital letters are A to Z
    and, in the Latin-1 block, U+00C0 to U+00DE without the multiplication
    sign U+00D7; each is 32 below its small letter. *)
Definition lower_code_point (c : ascii) : ascii :=
  let n := nat_of_ascii c in
  if ((65 <=? n)%nat && (n <=? 90)%nat)
     || ((192 <=? n)%nat && (n <=? 222)%nat && negb (n =? 215)%nat)
  then ascii_of_nat (n + 32)
  else c.

Fixpoint str_lower (s : string) : string :=
  match s with
  | EmptyString => EmptyString
  | String c s' => String (lower_code_point c) (str_lower s')
  end.

(** ** The parameter binder

    A compile call produces SQL text and, alongside, the ordered list of the
    values it bound.  [G A] is a computation that extends the list of bound
    values and returns an [A], or raises. *)

Inductive exn : Type :=
  | IndexError
  | TypeError.

Definition G (A : Type) : Type := list value -> exn + (A * list value).

Definition ret {A} (a : A) : G A := fun b => inr (a, b).

Definition raise {A} (e : exn) : G A := fun _ => inl e.

Definition bind {A B} (m : G A) (k : A -> G B) : G B :=
  fun b =>
    match m b with
    | inl e => inl e
    | inr (a, b') => k a b'
    end.

Declare Scope grammar_scope.
Delimit Scope grammar_scope with G.
Notation "x <- m ;; k" := (bind m (fun x => k))
  (at level 61, m at next level, right associativity) : grammar_scope.
Notation "m ;; k" := (bind m (fun _ => k))
  (at level 61, right associativity) : grammar_scope.
Open Scope grammar_scope.

(** Appends one value to the list of bound parameters. *)
Definition record (v : value) : G unit := fun b => inr (tt, (b ++ [v])%list).

(** [[f(x) for x in l]], left to right. *)
Fixpoint mapM {A B} (f : A -> G B) (l : list A) : G (list B) :=
  match l with
  | [] => ret []
  | x :: xs => y <- f x ;; ys <- mapM f xs ;; ret (y :: ys)
  end.

(** [l[0]] *)
Definition index0 {A} (l : list A) : G A :=
  match l with
  | [] => raise IndexError
  | x :: _ => ret x
  end.

(** A call made with no parameter bound yet. *)
Definition run {A} (m : G A) : exn + (A * list value) := m [].

(** ** Statement model *)

(** A table reference: a name, or a [QueryExpression] holding raw SQL. *)
Inductive table_ref : Type :=
  | Table (name : string)
  | RawTable (raw : string).

(** One ON-constraint of a join. *)
Record Clause : Type := {
  first : string;
  operator : string;
  second : string;
  boolean : string;
  where_ : bool
}.

Record JoinClause : Type := {
  table : table_ref;
  clauses : list Clause;
  type_ : string
}.

Record Where : Type := {
  w_type : string;
  w_boolean : string;
  w_column : string;
  w_operator : string;
  w_value : value
}.

Record Order : Type := {
  column : string;
  direction : string
}.

(** The statement a [QueryBuilder] holds.  [wheres] is [None] when the
    attribute is not a list; a union pairs its [all] flag with its query. *)
Inductive QueryBuilder : Type :=
  | Query (from__ : table_ref)
          (columns : list string)
          (joins : list JoinClause)
          (wheres : option (list Where))
          (orders : list Order)
          (limit_ : option Z)
          (offset_ : option Z)
          (lock_ : value)
          (unions : list (bool * QueryBuilder)).

Definition from__ (q : QueryBuilder) : table_ref :=
  match q with Query f _ _ _ _ _ _ _ _ => f end.
Definition columns (q : QueryBuilder) : list string :=
  match q with Query _ c _ _ _ _ _ _ _ => c end.
Definition joins (q : QueryBuilder) : list JoinClause :=
  match q with Query _ _ j _ _ _ _ _ _ => j end.
Definition wheres (q : QueryBuilder) : option (list Where) :=
  match q with Query _ _ _ w _ _ _ _ _ => w end.
Definition orders (q : QueryBuilder) : list Order :=
  match q with Query _ _ _ _ o _ _ _ _ => o end.
Definition limit_ (q : QueryBuilder) : option Z :=
  match q with Query _ _ _ _ _ l _ _ _ => l end.
Definition offset_ (q : QueryBuilder) : option Z :=
  match q with Query _ _ _ _ _ _ o _ _ => o end.
Definition lock_ (q : QueryBuilder) : value :=
  match q with Query _ _ _ _ _ _ _ l _ => l end.
Definition unions (q : QueryBuilder) : list (bool * QueryBuilder) :=
  match q with Query _ _ _ _ _ _ _ _ u => u end.

(** Truth value of a list ([if query.joins:]) and of an optional integer
    ([if query.limit_:], false for [None] and for [0]). *)
Definition nonempty {A} (l : list A) : bool :=
  match l with
  | [] => false
  | _ :: _ => true
  end.

Definition nonzero (l : option Z) : bool :=
  match l with
  | None => false
  | Some z => negb (z =? 0)%Z
  end.

(** [isinstance(query.wheres, list)] *)
Definition is_list {A} (o : option (list A)) : bool :=
  match o with
  | Some _ => true
  | None => false
  end.

(** The [values] argument of an upsert: one dict, or a list of dicts. *)
Inductive upsert_values : Type :=
  | OneRow (r : dict)
  | Rows (l : list dict).

(** [if not isinstance(values, list): values = [values]] *)
Definition as_list (v : upsert_values) : list dict :=
  match v with
  | OneRow r => [r]
  | Rows l => l
  end.

(** ** The base grammar *)

(** The double quote character, as a string. *)
Definition dquote : string := String "034"%char EmptyString.

(** [self]: the attributes of a grammar object, and the [_wrap_value] that a
    call of [self._wrap_value] dispatches to. *)
Module Self.

Record Grammar : Type := {
  marker : string;
  _table_prefix : string;
  _wrap_value : string -> string
}.

End Self.

Definition Grammar : Type := Self.Grammar.

Module BaseGrammar.

(** Modelled from the spec: the base class [Grammar] (orator/support/grammar.py)
    is not among the sources.  Its default [_wrap_value] never quotes [*] and
    wraps every other identifier in double quotes with the inner double quotes
    doubled. *)
Definition _wrap_value (value : string) : string :=
  if value =? "*" then value
  else dquote ++ replace dquote (dquote ++ dquote) value ++ dquote.

(** Modelled from the spec: [wrap] of the missing base class quotes an
    identifier with the dialect's [_wrap_value]. *)
Definition wrap (self : Grammar) (value : string) : string :=
  Self._wrap_value self value.

(** Modelled from the spec: [wrap_table] of the missing base class returns a
    raw expression as it is and quotes a table name after the optional
    prefix. *)
Definition wrap_table (self : Grammar) (t : table_ref) : string :=
  match t with
  | RawTable raw => raw
  | Table name => wrap self (Self._table_prefix self ++ name)
  end.

(** Modelled from the spec: [columnize] of the missing base class joins the
    wrapped column names with a comma and a space. *)
Definition columnize (self : Grammar) (cols : list string) : string :=
  join ", " (map (wrap self) cols).

(** Modelled from the spec: [parameter] of the missing base class inlines a
    raw expression without binding it, and for every other value emits the
    dialect's marker and records the value in the parameter list. *)
Definition parameter (self : Grammar) (v : value) : G string :=
  match v with
  | VExpr raw => ret raw
  | _ => record v ;; ret (Self.marker self)
  end.

(** Modelled from the spec: [parameterize] of the missing base class joins
    the placeholders of the values with a comma and a space. *)
Definition parameterize (self : Grammar) (vs : list value) : G string :=
  phs <- mapM (parameter self) vs ;;
  ret (join ", " phs).

(** Modelled from the spec: [_remove_leading_boolean] of the missing base
    query grammar strips a leading boolean connector, [and ] or [or ] in any
    letter case. *)
Definition _remove_leading_boolean (s : string) : string :=
  if startswith "and " (lower s) then drop 4 s
  else if startswith "or " (lower s) then drop 3 s
  else s.

End BaseGrammar.

Module QueryGrammar.

(** The renderers a dialect inherits from the base query grammar
    (orator/query/grammars/grammar.py, not among the sources), and [to_sql]
    of the query builder.  The dialect code is verified for every
    implementation of them. *)
Record Inherited : Type := {
  compile_select : QueryBuilder -> G string;
  compile_insert : QueryBuilder -> upsert_values -> G string;
  compile_update : QueryBuilder -> dict -> G string;
  _compile_unions : QueryBuilder -> G string;
  _compile_joins : QueryBuilder -> list JoinClause -> G string;
  _compile_wheres : QueryBuilder -> G string;
  _compile_orders : QueryBuilder -> list Order -> G string;
  _compile_limit : QueryBuilder -> option Z -> G string;
  _compile_join_constraints : Clause -> G string;
  to_sql : QueryBuilder -> G string
}.

End QueryGrammar.

(** ** Early return

    A Python statement either returns from the enclosing function or lets
    control pass to the statement after it. *)

Inductive stmt (R : Type) : Type :=
  | Return (r : R)
  | Pass.
Arguments Return {R} r.
Arguments Pass {R}.

Definition then_ {R} (s : stmt R) (rest : G R) : G R :=
  match s with
  | Return r => ret r
  | Pass => rest
  end.

Notation "s ;;; rest" := (then_ s rest)
  (at level 61, right associativity) : grammar_scope.

(** ** orator/query/grammars/mysql_grammar.py *)

Module MySQLQueryGrammar.

Definition _select_components : list string :=
  [ "aggregate_"; "columns"; "from__"; "joins"; "wheres"; "groups";
    "havings"; "orders"; "limit_"; "offset_"; "lock_" ].

Definition marker : string := "%s".

(** What [compile_upsert] can hand back: the tuple [(columns, parameters)]
    or a statement string. *)
Inductive upsert_result : Type :=
  | Tuple (columns parameters : string)
  | Statement (sql : string).

Definition _wrap_value (value : string) : string :=
  if value =? "*" then value
  else "`" ++ replace "`" "``" value ++ "`".

(** A MySQL grammar object with the given table prefix. *)
Definition grammar (prefix : string) : Grammar :=
  {| Self.marker := marker;
     Self._table_prefix := prefix;
     Self._wrap_value := _wrap_value |}.

Section Methods.

Variable self : Grammar.
Variable super : QueryGrammar.Inherited.

Definition compile_select (query : QueryBuilder) : G string :=
  sql <- QueryGrammar.compile_select super query ;;
  if nonempty (unions query) then
    u <- QueryGrammar._compile_unions super query ;;
    ret ("(" ++ sql ++ ") " ++ u)
  else
    ret sql.

Definition _compile_union (union : bool * QueryBuilder) : G string :=
  let joiner := if fst union then " UNION ALL " else " UNION " in
  q <- QueryGrammar.to_sql super (snd union) ;;
  ret (joiner ++ "(" ++ q ++ ")").

(** The result is a Python value: the lock string, or [None] when no branch
    returns. *)
Definition _compile_lock (query : QueryBuilder) (value : Py.value) : Py.value :=
  if is_basestring value then value
  else if is_True value then VStr "FOR UPDATE"
  else if is_False value then VStr "LOCK IN SHARE MODE"
  else VNone.

(** ["%s = %s" % (col)]: two conversions and the single argument [col], a
    string, so the formatting raises [TypeError]. *)
Definition format_pair (col : string) : G string := raise TypeError.

(** The statements of [compile_upsert] that follow its first [return]. *)
Definition compile_upsert_rest (table columns parameters : string)
    (conflict_columns : list string) : G upsert_result :=
  conflict_update_statements <- mapM format_pair conflict_columns ;;
  let conflict_update_join := join ", " conflict_update_statements in
  ret (Statement ("INSERT INTO " ++ table ++ " (" ++ columns ++ ") VALUES "
                  ++ parameters ++ " ON DUPLICATE KEY UPDATE "
                  ++ conflict_update_join)).

Definition compile_upsert (query : QueryBuilder) (values : upsert_values)
    (conflict_keys conflict_columns : list string) : G upsert_result :=
  let table := BaseGrammar.wrap_table self (from__ query) in
  let values := as_list values in
  row0 <- index0 values ;;
  let columns := BaseGrammar.columnize self (keys row0) in
  parameters <- BaseGrammar.parameterize self (Py.values row0) ;;
  let value := repeat ("(" ++ parameters ++ ")") (List.length values) in
  let parameters := join ", " value in
  Return (Tuple columns parameters) ;;;
  compile_upsert_rest table columns parameters conflict_columns.

Definition compile_update (query : QueryBuilder) (values : dict) : G string :=
  sql <- QueryGrammar.compile_update super query values ;;
  sql <- (if nonempty (orders query) then
            o <- QueryGrammar._compile_orders super query (orders query) ;;
            ret (sql ++ " " ++ o)
          else ret sql) ;;
  sql <- (if nonzero (limit_ query) then
            l <- QueryGrammar._compile_limit super query (limit_ query) ;;
            ret (sql ++ " " ++ l)
          else ret sql) ;;
  ret (rstrip sql).

Definition compile_delete (query : QueryBuilder) : G string :=
  let table := BaseGrammar.wrap_table self (from__ query) in
  wheres <- (if is_list (wheres query)
             then QueryGrammar._compile_wheres super query
             else ret "") ;;
  sql <- (if nonempty (joins query) then
            j <- QueryGrammar._compile_joins super query (joins query) ;;
            let joins := " " ++ j in
            ret ("DELETE " ++ table ++ " FROM " ++ table ++ joins ++ " " ++ wheres)
          else
            ret ("DELETE FROM " ++ table ++ " " ++ wheres)) ;;
  let sql := strip sql in
  sql <- (if nonempty (orders query) then
            o <- QueryGrammar._compile_orders super query (orders query) ;;
            ret (sql ++ " " ++ o)
          else ret sql) ;;
  sql <- (if nonzero (limit_ query) then
            l <- QueryGrammar._compile_limit super query (limit_ query) ;;
            ret (sql ++ " " ++ l)
          else ret sql) ;;
  ret sql.

End Methods.

End MySQLQueryGrammar.

(** ** orator/query/grammars/postgres_grammar.py *)

Module PostgresQueryGrammar.

Definition _operators : list string :=
  [ "="; "<"; ">"; "<="; ">="; "<>"; "!="; "like"; "not like"; "between";
    "ilike"; "&"; "|"; "#"; "<<"; ">>" ].

Definition marker : string := "%s".

(** A Postgres grammar object with the given table prefix; [_wrap_value] is
    the one inherited from the base class. *)
Definition grammar (prefix : string) : Grammar :=
  {| Self.marker := marker;
     Self._table_prefix := prefix;
     Self._wrap_value := BaseGrammar._wrap_value |}.

Section Methods.

Variable self : Grammar.
Variable super : QueryGrammar.Inherited.

Definition _compile_lock (query : QueryBuilder) (value : Py.value) : Py.value :=
  if is_basestring value then value
  else if truthy value then VStr "FOR UPDATE"
  else VStr "FOR SHARE".

Definition _compile_update_columns (values : dict) : G string :=
  columns <- mapM (fun kv : string * value =>
                     p <- BaseGrammar.parameter self (snd kv) ;;
                     ret (BaseGrammar.wrap self (fst kv) ++ " = " ++ p))
                  values ;;
  ret (join ", " columns).

Definition _compile_update_from (query : QueryBuilder) : string :=
  if negb (nonempty (joins query)) then ""
  else
    let froms := map (fun join => BaseGrammar.wrap_table self (table join))
                     (joins query) in
    if negb (List.length froms =? 0)%nat then " FROM " ++ join ", " froms
    else "".

Definition _compile_update_join_wheres (query : QueryBuilder) : G string :=
  join_wheres <- mapM (QueryGrammar._compile_join_constraints super)
                      (flat_map clauses (joins query)) ;;
  ret (join " " join_wheres).

Definition _compile_update_wheres (query : QueryBuilder) : G string :=
  base_where <- QueryGrammar._compile_wheres super query ;;
  if negb (nonempty (joins query)) then ret base_where
  else
    join_where <- _compile_update_join_wheres query ;;
    if strip base_where =? "" then
      ret ("WHERE " ++ BaseGrammar._remove_leading_boolean join_where)
    else
      ret (base_where ++ " " ++ join_where).

Definition compile_update (query : QueryBuilder) (values : dict) : G string :=
  let table := BaseGrammar.wrap_table self (from__ query) in
  columns <- _compile_update_columns values ;;
  let from_ := _compile_update_from query in
  where_ <- _compile_update_wheres query ;;
  ret (strip ("UPDATE " ++ table ++ " SET " ++ columns ++ from_ ++ " " ++ where_)).

Definition compile_insert_get_id (query : QueryBuilder) (values : upsert_values)
    (sequence : option string) : G string :=
  let sequence := match sequence with None => "id" | Some s => s end in
  i <- QueryGrammar.compile_insert super query values ;;
  ret (i ++ " RETURNING " ++ BaseGrammar.wrap self sequence).

Definition compile_upsert (query : QueryBuilder) (values : upsert_values)
    (conflict_keys conflict_columns : list string) : G string :=
  let table := BaseGrammar.wrap_table self (from__ query) in
  let values := as_list values in
  row0 <- index0 values ;;
  let columns := BaseGrammar.columnize self (keys row0) in
  parameters <- BaseGrammar.parameterize self (Py.values row0) ;;
  let value := repeat ("(" ++ parameters ++ ")") (List.length values) in
  let parameters := join ", " value in
  let conflict_key_join := join ", " conflict_keys in
  let conflict_update_statements :=
    map (fun col => col ++ " = EXCLUDED." ++ col) conflict_columns in
  let conflict_update_join := join ", " conflict_update_statements in
  ret ("INSERT INTO " ++ table ++ " (" ++ columns ++ ") VALUES " ++ parameters
       ++ " ON CONFLICT (" ++ conflict_key_join ++ ") DO UPDATE SET "
       ++ conflict_update_join).

(** The result is a dict with one entry: the statement and an empty dict. *)
Definition compile_truncate (query : QueryBuilder) : list (string * dict) :=
  [ ("TRUNCATE " ++ BaseGrammar.wrap_table self (from__ query)
     ++ " RESTART IDENTITY", []) ].

End Methods.

End PostgresQueryGrammar.

(** ** orator/schema/grammars/postgres_grammar.py *)

(** A column definition (a [Fluent]): an attribute that was never set reads
    as [None]. *)
Module Column.

Record Fluent : Type := {
  name : string;
  type : string;
  length : value;
  total : value;
  places : value;
  allowed : list string;
  nullable : value;
  default : value;
  auto_increment : value;
  use_current : value
}.

End Column.

Record Blueprint : Type := {
  get_table : string;
  get_columns : list Column.Fluent
}.

Module PostgresSchemaGrammar.

Definition _modifiers : list string := [ "increment"; "nullable"; "default" ].

Definition _serials : list string :=
  [ "big_integer"; "integer"; "medium_integer"; "small_integer"; "tiny_integer" ].

Definition marker : string := "%s".

(** A Postgres schema grammar object with the given table prefix;
    [_wrap_value] is the one inherited from the base class. *)
Definition grammar (prefix : string) : Grammar :=
  {| Self.marker := marker;
     Self._table_prefix := prefix;
     Self._wrap_value := BaseGrammar._wrap_value |}.

Section Methods.

Variable self : Grammar.

(** [_get_default_value] of the base schema grammar, not among the
    sources. *)
Variable _get_default_value : value -> string.

Definition compile_upsert (query : QueryBuilder) (values : upsert_values)
    (conflict_keys conflict_columns : list string) : G string :=
  let table := BaseGrammar.wrap_table self (from__ query) in
  let values := as_list values in
  row0 <- index0 values ;;
  let columns := BaseGrammar.columnize self (keys row0) in
  parameters <- BaseGrammar.parameterize self (Py.values row0) ;;
  let value := repeat ("(" ++ parameters ++ ")") (List.length values) in
  let parameters := join ", " value in
  let conflict_key_join := join ", " conflict_keys in
  let conflict_update_statements :=
    map (fun col => col ++ " = EXCLUDED." ++ col) conflict_columns in
  let conflict_update_join := join ", " conflict_update_statements in
  ret ("INSERT INTO " ++ table ++ " (" ++ columns ++ ") VALUES " ++ parameters
       ++ " ON CONFLICT (" ++ conflict_key_join ++ ") DO UPDATE SET "
       ++ conflict_update_join).

Definition _type_text (column : Column.Fluent) : string := "TEXT".

Definition _type_integer (column : Column.Fluent) : string :=
  if truthy (Column.auto_increment column) then "SERIAL" else "INTEGER".

Definition _type_big_integer (column : Column.Fluent) : string :=
  if truthy (Column.auto_increment column) then "BIGSERIAL" else "BIGINT".

Definition _type_medium_integer (column : Column.Fluent) : string :=
  if truthy (Column.auto_increment column) then "SERIAL" else "INTEGER".

Definition _type_tiny_integer (column : Column.Fluent) : string :=
  if truthy (Column.auto_increment column) then "SMALLSERIAL" else "SMALLINT".

Definition _type_small_integer (column : Column.Fluent) : string :=
  if truthy (Column.auto_increment column) then "SMALLSERIAL" else "SMALLINT".

Definition _type_double (column : Column.Fluent) : string := "DOUBLE PRECISION".

Definition _type_float (column : Column.Fluent) : string := _type_double column.

Definition _type_boolean (column : Column.Fluent) : string := "BOOLEAN".

Definition _type_timestamp (column : Column.Fluent) : string :=
  if truthy (Column.use_current column)
  then "TIMESTAMP(6) WITHOUT TIME ZONE DEFAULT CURRENT_TIMESTAMP(6)"
  else "TIMESTAMP(6) WITHOUT TIME ZONE".

Definition _modify_nullable (blueprint : Blueprint) (column : Column.Fluent) : string :=
  if truthy (Column.nullable column) then " NULL" else " NOT NULL".

Definition _modify_default (blueprint : Blueprint) (column : Column.Fluent) : string :=
  match Column.default column with
  | VNone => ""
  | d => " DEFAULT " ++ _get_default_value d
  end.

Definition _modify_increment (blueprint : Blueprint) (column : Column.Fluent) : string :=
  if contains (Column.type column) _serials && truthy (Column.auto_increment column)
  then " PRIMARY KEY"
  else "".

(** The method [_modify_<name>] of this grammar, when it has one. *)
Definition modifier_method (name : string)
  : option (Blueprint -> Column.Fluent -> string) :=
  if name =? "increment" then Some _modify_increment
  else if name =? "nullable" then Some _modify_nullable
  else if name =? "default" then Some _modify_default
  else None.

(** Modelled from the spec: [_add_modifiers] of the base schema grammar
    (orator/schema/grammars/grammar.py) is not among the sources.  It walks
    the dialect's [_modifiers] list in order and appends to the type text
    what each modifier's method returns. *)
Definition _add_modifiers (sql : string) (blueprint : Blueprint)
    (column : Column.Fluent) : string :=
  fold_left (fun sql modifier =>
               match modifier_method modifier with
               | Some method => sql ++ method blueprint column
               | None => sql
               end)
            _modifiers sql.

(** [_get_dbal_column_type] of the base schema grammar, not among the
    sources: what [super(...)._get_dbal_column_type] calls. *)
Variable super_get_dbal_column_type : string -> string.

Definition _get_dbal_column_type (type_ : string) : string :=
  let type_ := str_lower type_ in
  if type_ =? "enum" then "string"
  else super_get_dbal_column_type type_.

End Methods.

End PostgresSchemaGrammar.

(** ** Specification vocabulary and sample objects *)

(** The words of the spec for the quoting policy: every occurrence of the
    quote character [q] is doubled. *)
Fixpoint doubled (q : ascii) (s : string) : string :=
  match s with
  | EmptyString => EmptyString
  | String c s' =>
      if Ascii.eqb c q then String q (String q (doubled q s'))
      else String c (doubled q s')
  end.

(** A statement on the table [table] with no clause. *)
Definition plain_query : QueryBuilder :=
  Query (Table "table") ["*"] [] (Some []) [] None None VNone [].

(** What [parameter] writes for a value and whether it binds it. *)
Definition placeholder (self : Grammar) (v : value) : string :=
  match v with
  | VExpr raw => raw
  | _ => Self.marker self
  end.

Definition bindable (v : value) : bool :=
  match v with
  | VExpr _ => false
  | _ => true
  end.

(** The upsert of the end-to-end example: one row [id = 1, name = a]. *)
Definition example_row : dict := [("id", VInt 1); ("name", VStr "a")].

(** A Postgres grammar with marker [m] and no table prefix. *)
Definition postgres_with_marker (m : string) : Grammar :=
  {| Self.marker := m;
     Self._table_prefix := "";
     Self._wrap_value := BaseGrammar._wrap_value |}.

(** The text the example expects, with the conflict target quoted, and the
    text with the conflict target as it was passed. *)
Definition upsert_text (target m : string) : string :=
  "INSERT INTO " ++ dquote ++ "table" ++ dquote
  ++ " (" ++ dquote ++ "id" ++ dquote ++ ", " ++ dquote ++ "name" ++ dquote
  ++ ") VALUES (" ++ m ++ ", " ++ m ++ ") ON CONFLICT (" ++ target
  ++ ") DO UPDATE SET name = EXCLUDED.name".

Definition upsert_text_quoted_target (m : string) : string :=
  upsert_text (dquote ++ "id" ++ dquote) m.

Definition upsert_text_plain_target (m : string) : string :=
  upsert_text "id" m.

(** The statement text of a Postgres upsert whose VALUES clause holds the
    placeholder groups [groups]. *)
Definition upsert_statement (self : Grammar) (q : QueryBuilder) (row0 : dict)
    (groups : list string) (conflict_keys conflict_columns : list string) : string :=
  "INSERT INTO " ++ BaseGrammar.wrap_table self (from__ q)
  ++ " (" ++ BaseGrammar.columnize self (keys row0) ++ ") VALUES "
  ++ join ", " groups
  ++ " ON CONFLICT (" ++ join ", " conflict_keys ++ ") DO UPDATE SET "
  ++ join ", " (map (fun col => col ++ " = EXCLUDED." ++ col) conflict_columns).

(** The parenthesized placeholder group of a row. *)
Definition placeholder_group (self : Grammar) (row : dict) : string :=
  "(" ++ join ", " (map (placeholder self) (Py.values row)) ++ ")".

(** [yields m a]: whatever was bound before the call, [m] returns [a]. *)
Definition yields {A} (m : G A) (a : A) : Prop :=
  forall b, exists b', m b = inr (a, b').

(** Stand-ins for the inherited renderers, to run the dialect code on
    concrete statements: each returns a fixed fragment, the where clause is
    empty for a statement without wheres and binds one value otherwise, and
    a join constraint is rendered from its fields. *)
Definition fixed_renderers : QueryGrammar.Inherited :=
  {| QueryGrammar.compile_select := fun _ => ret "SELECT * FROM `t`";
     QueryGrammar.compile_insert := fun _ _ => ret "INSERT INTO t (id) VALUES (%s)";
     QueryGrammar.compile_update := fun _ _ => ret "UPDATE `t` SET `a` = %s";
     QueryGrammar._compile_unions := fun _ => ret "UNION (SELECT * FROM `u`)";
     QueryGrammar._compile_joins := fun _ _ => ret "INNER JOIN `u` ON `t`.`id` = `u`.`t_id`";
     QueryGrammar._compile_wheres :=
       fun q => match wheres q with
                | Some (_ :: _) => record (VInt 5) ;; ret "WHERE `id` = %s"
                | _ => ret ""
                end;
     QueryGrammar._compile_orders := fun _ _ => ret "ORDER BY `id` ASC";
     QueryGrammar._compile_limit := fun _ _ => ret "LIMIT 1";
     QueryGrammar._compile_join_constraints :=
       fun c => ret (boolean c ++ " " ++ first c ++ " " ++ operator c ++ " " ++ second c);
     QueryGrammar.to_sql := fun _ => ret "SELECT * FROM `u`" |}.

(** Statements on [t]: joined with [u] or not, with a where or not. *)
Definition id_where : Where :=
  {| w_type := "basic"; w_boolean := "and"; w_column := "id";
     w_operator := "="; w_value := VInt 5 |}.

Definition u_join : JoinClause :=
  {| table := Table "u";
     clauses := [ {| first := "t.id"; operator := "="; second := "u.t_id";
                     boolean := "AND"; where_ := false |} ];
     type_ := "inner" |}.

Definition joined_query : QueryBuilder :=
  Query (Table "t") ["*"] [u_join] (Some [id_where]) [] None None VNone [].

Definition unjoined_query : QueryBuilder :=
  Query (Table "t") ["*"] [] (Some [id_where]) [] None None VNone [].

Definition joined_query_no_where : QueryBuilder :=
  Query (Table "t") ["*"] [u_join] (Some []) [] None None VNone [].

(** [framed m]: a call of [m] made after [b] was bound returns what the call
    made with nothing bound returns, and binds the same values after [b]. *)
Definition framed {A} (m : G A) : Prop :=
  forall b,
    m b = match m [] with
          | inl e => inl e
          | inr (a, ps) => inr (a, (b ++ ps)%list)
          end.

(** The inherited renderers keep no state of their own. *)
Record framed_renderers (super : QueryGrammar.Inherited) : Prop := {
  framed_compile_select : forall q, framed (QueryGrammar.compile_select super q);
  framed_compile_insert : forall q v, framed (QueryGrammar.compile_insert super q v);
  framed_compile_update : forall q v, framed (QueryGrammar.compile_update super q v);
  framed_compile_unions : forall q, framed (QueryGrammar._compile_unions super q);
  framed_compile_joins : forall q j, framed (QueryGrammar._compile_joins super q j);
  framed_compile_wheres : forall q, framed (QueryGrammar._compile_wheres super q);
  framed_compile_orders : forall q o, framed (QueryGrammar._compile_orders super q o);
  framed_compile_limit : forall q l, framed (QueryGrammar._compile_limit super q l);
  framed_compile_join_constraints :
    forall c, framed (QueryGrammar._compile_join_constraints super c);
  framed_to_sql : forall q, framed (QueryGrammar.to_sql super q)
}.

(** A statement with a union, an order and a limit. *)
Definition union_query : QueryBuilder :=
  Query (Table "t") ["*"] [] (Some [id_where])
    [ {| column := "id"; direction := "asc" |} ] (Some 1%Z) None VNone
    [ (false, unjoined_query) ].

(** The number of occurrences of the character [q] in [s]. *)
Fixpoint count_char (q : ascii) (s : string) : nat :=
  match s with
  | EmptyString => 0
  | String c s' => (if Ascii.eqb c q then 1 else 0) + count_char q s'
  end.

(** The serial type tags of the Postgres schema grammar, each with the
    method [_type_<tag>] that renders it. *)
Definition serial_type_methods : list (string * (Column.Fluent -> string)) :=
  [ ("big_integer", PostgresSchemaGrammar._type_big_integer);
    ("integer", PostgresSchemaGrammar._type_integer);
    ("medium_integer", PostgresSchemaGrammar._type_medium_integer);
    ("small_integer", PostgresSchemaGrammar._type_small_integer);
    ("tiny_integer", PostgresSchemaGrammar._type_tiny_integer) ].

(** The type texts of Postgres that create a sequence. *)
Definition serial_texts : list string := [ "BIGSERIAL"; "SERIAL"; "SMALLSERIAL" ].

(** Stand-ins for the inherited renderers in which the join clause binds a
    value too: the where clause binds 5, the join clause binds x. *)
Definition binding_renderers : QueryGrammar.Inherited :=
  {| QueryGrammar.compile_select := fun _ => ret "SELECT * FROM `t`";
     QueryGrammar.compile_insert := fun _ _ => ret "INSERT INTO t (id) VALUES (%s)";
     QueryGrammar.compile_update :=
       fun _ _ => record (VInt 1) ;; ret "UPDATE `t` SET `a` = %s  ";
     QueryGrammar._compile_unions := fun _ => ret "UNION (SELECT * FROM `u`)";
     QueryGrammar._compile_joins :=
       fun _ _ => record (VStr "x") ;; ret "INNER JOIN `u` ON `u`.`k` = %s";
     QueryGrammar._compile_wheres :=
       fun _ => record (VInt 5) ;; ret "WHERE `id` = %s";
     QueryGrammar._compile_orders := fun _ _ => ret "ORDER BY `id` ASC";
     QueryGrammar._compile_limit := fun _ _ => ret "LIMIT 1";
     QueryGrammar._compile_join_constraints := fun c => ret "";
     QueryGrammar.to_sql := fun _ => ret "SELECT * FROM `u`" |}.

(** A join without ON-constraints, and a statement that has only it. *)
Definition bare_join : JoinClause :=
  {| table := Table "u"; clauses := []; type_ := "cross" |}.

Definition bare_join_query : QueryBuilder :=
  Query (Table "t") ["*"] [bare_join] (Some []) [] None None VNone [].

(** A column definition with every attribute unset but its name and type. *)
Definition column_of (name type : string) : Column.Fluent :=
  {| Column.name := name; Column.type := type;
     Column.length := VNone; Column.total := VNone; Column.places := VNone;
     Column.allowed := []; Column.nullable := VNone; Column.default := VNone;
     Column.auto_increment := VNone; Column.use_current := VNone |}.

(** The same column with [auto_increment] and with [default] set. *)
Definition with_auto_increment (c : Column.Fluent) (v : value) : Column.Fluent :=
  {| Column.name := Column.name c; Column.type := Column.type c;
     Column.length := Column.length c; Column.total := Column.total c;
     Column.places := Column.places c; Column.allowed := Column.allowed c;
     Column.nullable := Column.nullable c; Column.default := Column.default c;
     Column.auto_increment := v; Column.use_current := Column.use_current c |}.

Definition with_default (c : Column.Fluent) (v : value) : Column.Fluent :=
  {| Column.name := Column.name c; Column.type := Column.type c;
     Column.length := Column.length c; Column.total := Column.total c;
     Column.places := Column.places c; Column.allowed := Column.allowed c;
     Column.nullable := Column.nullable c; Column.default := v;
     Column.auto_increment := Column.auto_increment c;
     Column.use_current := Column.use_current c |}.

(** The text of the SET clause of an update with the values [values]:
    wrapped column, equals sign, placeholder, joined with commas. *)
Definition set_clause (self : Grammar) (values : dict) : string :=
  join ", " (map (fun kv : string * value =>
                    BaseGrammar.wrap self (fst kv) ++ " = "
                    ++ placeholder self (snd kv)) values).

(** * Properties *)

(** ** Strings *)

Section StringFacts.

Lemma append_nil_r (s : string) : s ++ "" = s.
Proof. induction s as [|c s IH]; simpl; [reflexivity | now rewrite IH]. Qed.

Lemma append_assoc (a b c : string) : (a ++ b) ++ c = a ++ b ++ c.
Proof. induction a as [|x a IH]; simpl; [reflexivity | now rewrite IH]. Qed.

Lemma doubled_append (q : ascii) (a b : string) :
  doubled q (a ++ b) = doubled q a ++ doubled q b.
Proof.
  induction a as [|c a IH]; simpl; [reflexivity|].
  destruct (Ascii.eqb c q); simpl; now rewrite IH.
Qed.

Lemma startswith_char (q c : ascii) (s : string) :
  startswith (String q "") (String c s) = Ascii.eqb c q.
Proof.
  unfold startswith; simpl.
  destruct (ascii_dec q c) as [->|ne].
  - rewrite Ascii.eqb_refl. now destruct s.
  - symmetry. apply Ascii.eqb_neq. congruence.
Qed.

(** [str.replace] of a one-character string by its double is [doubled]. *)
Lemma replace_char_doubled (q : ascii) (s : string) :
  replace (String q "") (String q (String q "")) s = doubled q s.
Proof.
  unfold replace.
  induction s as [|c s IH]; [reflexivity|].
  cbn [replace_from]. rewrite startswith_char.
  destruct (Ascii.eqb_spec c q) as [->|ne]; cbn.
  - rewrite Ascii.eqb_refl. now rewrite IH.
  - destruct (Ascii.eqb_spec c q); [contradiction|]. now rewrite IH.
Qed.

Lemma contains_In (x : string) (l : list string) :
  contains x l = true <-> In x l.
Proof.
  unfold contains. rewrite existsb_exists. split.
  - intros [y [Hy E]]. apply String.eqb_eq in E. now subst.
  - intros H. exists x. split; [assumption | apply String.eqb_refl].
Qed.

End StringFacts.

(** ** Lock clauses *)

(** C4: in both dialects a string lock value is returned as it is; [True]
    gives FOR UPDATE in both; [False] gives LOCK IN SHARE MODE in MySQL and
    FOR SHARE in Postgres. *)
Theorem compile_lock_contract (q : QueryBuilder) :
  (forall s, MySQLQueryGrammar._compile_lock q (VStr s) = VStr s) /\
  (forall s, PostgresQueryGrammar._compile_lock q (VStr s) = VStr s) /\
  MySQLQueryGrammar._compile_lock q (VBool true) = VStr "FOR UPDATE" /\
  MySQLQueryGrammar._compile_lock q (VBool false) = VStr "LOCK IN SHARE MODE" /\
  PostgresQueryGrammar._compile_lock q (VBool true) = VStr "FOR UPDATE" /\
  PostgresQueryGrammar._compile_lock q (VBool false) = VStr "FOR SHARE".
Proof. repeat split. Qed.

Example mysql_lock_skip_locked (q : QueryBuilder) :
  MySQLQueryGrammar._compile_lock q (VStr "FOR UPDATE SKIP LOCKED")
  = VStr "FOR UPDATE SKIP LOCKED".
Proof. reflexivity. Qed.

(** C10: on a lock value that is neither a string nor one of the two boolean
    singletons, MySQL returns [None], while Postgres returns FOR UPDATE for a
    truthy value and FOR SHARE for a falsy one; the two results differ. *)
Theorem compile_lock_non_boolean (q : QueryBuilder) (v : value) :
  (forall s, v <> VStr s) ->
  v <> VBool true ->
  v <> VBool false ->
  MySQLQueryGrammar._compile_lock q v = VNone /\
  (truthy v = true -> PostgresQueryGrammar._compile_lock q v = VStr "FOR UPDATE") /\
  (truthy v = false -> PostgresQueryGrammar._compile_lock q v = VStr "FOR SHARE") /\
  MySQLQueryGrammar._compile_lock q v <> PostgresQueryGrammar._compile_lock q v.
Proof.
  intros Hs Ht Hf.
  destruct v as [| [|] | z | s | l | raw];
    try (exfalso; (apply Ht || apply Hf || apply (Hs s)); reflexivity);
    unfold MySQLQueryGrammar._compile_lock, PostgresQueryGrammar._compile_lock;
    cbn [is_basestring is_True is_False];
    repeat split; try congruence;
    try (intros ->; reflexivity);
    destruct (truthy _); discriminate.
Qed.

Lemma compile_lock_non_boolean_witness :
  MySQLQueryGrammar._compile_lock plain_query (VInt 1) = VNone /\
  PostgresQueryGrammar._compile_lock plain_query (VInt 1) = VStr "FOR UPDATE" /\
  PostgresQueryGrammar._compile_lock plain_query (VInt 0) = VStr "FOR SHARE".
Proof.
  destruct (compile_lock_non_boolean plain_query (VInt 1)) as [H1 [H2 _]];
    try discriminate.
  destruct (compile_lock_non_boolean plain_query (VInt 0)) as [_ [_ [H3 _]]];
    try discriminate.
  split; [exact H1 | split; [apply H2 | apply H3]; reflexivity].
Defined.

(** ** Identifier wrapping *)

Lemma mysql_wrap_value_quoted (s : string) :
  s <> "*" ->
  MySQLQueryGrammar._wrap_value s = "`" ++ doubled "`" s ++ "`".
Proof.
  intros ne. unfold MySQLQueryGrammar._wrap_value.
  destruct (String.eqb_spec s "*") as [->|_]; [contradiction|].
  now rewrite (replace_char_doubled "`" s).
Qed.

(** C5: MySQL never quotes the identifier [*]; every other identifier comes
    out between backticks with each of its backticks doubled, so an
    identifier that holds a backtick yields a text that holds two in a row
    at that place. *)
Theorem mysql_wrap_value_policy :
  MySQLQueryGrammar._wrap_value "*" = "*" /\
  (forall s, s <> "*" ->
     MySQLQueryGrammar._wrap_value s = "`" ++ doubled "`" s ++ "`") /\
  (forall a b,
     MySQLQueryGrammar._wrap_value (a ++ "`" ++ b)
     = ("`" ++ doubled "`" a) ++ "``" ++ (doubled "`" b ++ "`")).
Proof.
  split; [reflexivity|]. split; [exact mysql_wrap_value_quoted|].
  intros a b. rewrite mysql_wrap_value_quoted.
  - rewrite doubled_append. cbn. now rewrite !append_assoc.
  - destruct a as [|c [|c' a]]; cbn; discriminate.
Qed.

Lemma mysql_wrap_value_policy_witness :
  MySQLQueryGrammar._wrap_value "a`b" = "`a``b`".
Proof.
  destruct mysql_wrap_value_policy as [_ [H _]].
  rewrite (H "a`b"); [reflexivity | discriminate].
Defined.

(** ** Column types and modifiers of the Postgres schema grammar *)

(** C9: an integer column is SERIAL when it auto-increments and INTEGER
    otherwise; the increment modifier is PRIMARY KEY exactly for an
    auto-incrementing column whose type is in the serial list, and empty
    otherwise; the modifiers are appended in the order increment, nullable,
    default. *)
Theorem postgres_schema_integer_and_modifiers
    (gdv : value -> string) (bp : Blueprint) (c : Column.Fluent) :
  (truthy (Column.auto_increment c) = true ->
     PostgresSchemaGrammar._type_integer c = "SERIAL") /\
  (truthy (Column.auto_increment c) = false ->
     PostgresSchemaGrammar._type_integer c = "INTEGER") /\
  (PostgresSchemaGrammar._modify_increment bp c = " PRIMARY KEY" <->
     In (Column.type c) PostgresSchemaGrammar._serials /\
     truthy (Column.auto_increment c) = true) /\
  (PostgresSchemaGrammar._modify_increment bp c <> " PRIMARY KEY" ->
     PostgresSchemaGrammar._modify_increment bp c = "") /\
  PostgresSchemaGrammar._modifiers = ["increment"; "nullable"; "default"] /\
  (forall sql,
     PostgresSchemaGrammar._add_modifiers gdv sql bp c
     = sql ++ PostgresSchemaGrammar._modify_increment bp c
           ++ PostgresSchemaGrammar._modify_nullable bp c
           ++ PostgresSchemaGrammar._modify_default gdv bp c).
Proof.
  unfold PostgresSchemaGrammar._type_integer,
    PostgresSchemaGrammar._modify_increment.
  repeat split.
  - now intros ->.
  - now intros ->.
  - apply contains_In.
    destruct (contains _ _); [reflexivity | discriminate].
  - destruct (contains _ _); [|discriminate].
    destruct (truthy _); [reflexivity | discriminate].
  - intros [Hin Hauto]. apply contains_In in Hin. now rewrite Hin, Hauto.
  - destruct (contains _ _ && truthy _); [congruence | reflexivity].
  - intros sql. unfold PostgresSchemaGrammar._add_modifiers.
    cbn. now rewrite !append_assoc.
Qed.

Lemma postgres_schema_integer_and_modifiers_witness :
  let c := {| Column.name := "id"; Column.type := "integer";
              Column.length := VNone; Column.total := VNone;
              Column.places := VNone; Column.allowed := [];
              Column.nullable := VNone; Column.default := VNone;
              Column.auto_increment := VBool true;
              Column.use_current := VNone |} in
  let bp := {| get_table := "users"; get_columns := [c] |} in
  PostgresSchemaGrammar._type_integer c = "SERIAL" /\
  PostgresSchemaGrammar._modify_increment bp c = " PRIMARY KEY" /\
  PostgresSchemaGrammar._add_modifiers (fun _ => "") "SERIAL" bp c
  = "SERIAL PRIMARY KEY NOT NULL".
Proof.
  intros c bp.
  destruct (postgres_schema_integer_and_modifiers (fun _ => "") bp c)
    as [H1 [_ [H3 [_ [_ H6]]]]].
  split; [apply H1; reflexivity|].
  split; [apply H3; split; [cbn; tauto | reflexivity]|].
  rewrite H6. reflexivity.
Defined.

(** ** The parameter binder *)

Section Binder.

Variable self : Grammar.

Lemma parameter_run (v : value) (b : list value) :
  BaseGrammar.parameter self v b
  = inr (placeholder self v, (b ++ filter bindable [v])%list).
Proof.
  destruct v; cbn; unfold ret; try reflexivity.
  now rewrite app_nil_r.
Qed.

Lemma mapM_parameter_run (vs : list value) (b : list value) :
  mapM (BaseGrammar.parameter self) vs b
  = inr (map (placeholder self) vs, (b ++ filter bindable vs)%list).
Proof.
  revert b. induction vs as [|v vs IH]; intros b.
  - cbn. unfold ret. now rewrite app_nil_r.
  - cbn [mapM]. unfold bind at 1. rewrite parameter_run.
    unfold bind at 1. rewrite IH. unfold ret.
    change (v :: vs) with ([v] ++ vs)%list.
    now rewrite filter_app, app_assoc.
Qed.

Lemma parameterize_run (vs : list value) (b : list value) :
  BaseGrammar.parameterize self vs b
  = inr (join ", " (map (placeholder self) vs),
         (b ++ filter bindable vs)%list).
Proof.
  unfold BaseGrammar.parameterize, bind. now rewrite mapM_parameter_run.
Qed.

Lemma placeholders_all_markers (vs : list value) :
  forallb bindable vs = true ->
  map (placeholder self) vs = repeat (Self.marker self) (List.length vs)
  /\ filter bindable vs = vs.
Proof.
  induction vs as [|v vs IH]; cbn; [now split|].
  intros H. apply andb_true_iff in H as [Hv Hvs].
  destruct (IH Hvs) as [IH1 IH2]. rewrite Hv.
  split; [|now rewrite IH2].
  rewrite IH1. now destruct v.
Qed.

End Binder.

(** ** Upsert *)

Lemma mysql_compile_upsert_run
    (self : Grammar) (q : QueryBuilder) (values : upsert_values)
    (conflict_keys conflict_columns : list string) (b : list value) :
  MySQLQueryGrammar.compile_upsert self q values conflict_keys conflict_columns b
  = match as_list values with
    | [] => inl IndexError
    | row0 :: _ =>
        inr (MySQLQueryGrammar.Tuple
               (join ", " (map (BaseGrammar.wrap self) (keys row0)))
               (join ", "
                  (repeat ("(" ++ join ", " (map (placeholder self) (Py.values row0)) ++ ")")
                          (List.length (as_list values)))),
             (b ++ filter bindable (Py.values row0))%list)
    end.
Proof.
  unfold MySQLQueryGrammar.compile_upsert.
  destruct (as_list values) as [|row0 rest]; [reflexivity|].
  cbn [index0]. unfold bind, ret. now rewrite parameterize_run.
Qed.

(** C2, as the code has it: on a single dict and on every non-empty row list
    the MySQL [compile_upsert] returns early with the tuple of the wrapped,
    comma-joined column names of row 0 and the comma-joined placeholder
    groups, one per row; on the empty row list [values[0]] raises
    [IndexError] before the return; for no input does it hand back a
    statement string or reach the formatting after its first return. *)
Theorem mysql_compile_upsert_early_return
    (self : Grammar) (q : QueryBuilder)
    (conflict_keys conflict_columns : list string) (b : list value) :
  (forall row,
     MySQLQueryGrammar.compile_upsert self q (OneRow row)
       conflict_keys conflict_columns b
     = inr (MySQLQueryGrammar.Tuple
              (join ", " (map (BaseGrammar.wrap self) (keys row)))
              (placeholder_group self row),
            (b ++ filter bindable (Py.values row))%list)) /\
  (forall row0 rest,
     MySQLQueryGrammar.compile_upsert self q (Rows (row0 :: rest))
       conflict_keys conflict_columns b
     = inr (MySQLQueryGrammar.Tuple
              (join ", " (map (BaseGrammar.wrap self) (keys row0)))
              (join ", " (repeat (placeholder_group self row0)
                                 (S (List.length rest)))),
            (b ++ filter bindable (Py.values row0))%list)) /\
  MySQLQueryGrammar.compile_upsert self q (Rows [])
    conflict_keys conflict_columns b = inl IndexError /\
  (forall values sql b',
     MySQLQueryGrammar.compile_upsert self q values
       conflict_keys conflict_columns b
     <> inr (MySQLQueryGrammar.Statement sql, b')) /\
  (forall values,
     MySQLQueryGrammar.compile_upsert self q values
       conflict_keys conflict_columns b
     <> inl TypeError).
Proof.
  split; [|split; [|split; [|split]]].
  - intros row. now rewrite mysql_compile_upsert_run.
  - intros row0 rest. now rewrite mysql_compile_upsert_run.
  - now rewrite mysql_compile_upsert_run.
  - intros values sql b'. rewrite mysql_compile_upsert_run.
    destruct (as_list values); discriminate.
  - intros values. rewrite mysql_compile_upsert_run.
    destruct (as_list values); discriminate.
Qed.

Lemma mysql_compile_upsert_early_return_witness :
  run (MySQLQueryGrammar.compile_upsert (MySQLQueryGrammar.grammar "") plain_query
         (Rows [example_row; example_row]) ["id"] ["name"])
  = inr (MySQLQueryGrammar.Tuple "`id`, `name`" "(%s, %s), (%s, %s)",
         [VInt 1; VStr "a"]).
Proof.
  destruct (mysql_compile_upsert_early_return (MySQLQueryGrammar.grammar "")
              plain_query ["id"] ["name"] []) as [_ [H _]].
  exact (H example_row [example_row]).
Defined.

(** C2 fails as stated: on the empty row list the MySQL [compile_upsert]
    raises [IndexError] and returns no tuple. *)
Lemma mysql_upsert_empty_list_raises :
  run (MySQLQueryGrammar.compile_upsert (MySQLQueryGrammar.grammar "") plain_query
         (Rows []) ["id"] ["name"])
  = inl IndexError.
Proof. reflexivity. Qed.

Section PostgresUpsert.

Variable self : Grammar.
Variable q : QueryBuilder.
Variables conflict_keys conflict_columns : list string.

Lemma postgres_query_upsert_run (values : upsert_values) (b : list value) :
  PostgresQueryGrammar.compile_upsert self q values conflict_keys conflict_columns b
  = match as_list values with
    | [] => inl IndexError
    | row0 :: _ =>
        inr (upsert_statement self q row0
               (repeat (placeholder_group self row0) (List.length (as_list values)))
               conflict_keys conflict_columns,
             (b ++ filter bindable (Py.values row0))%list)
    end.
Proof.
  unfold PostgresQueryGrammar.compile_upsert.
  destruct (as_list values) as [|row0 rest]; [reflexivity|].
  cbn [index0]. unfold bind, ret. now rewrite parameterize_run.
Qed.

Lemma postgres_schema_upsert_run (values : upsert_values) (b : list value) :
  PostgresSchemaGrammar.compile_upsert self q values conflict_keys conflict_columns b
  = match as_list values with
    | [] => inl IndexError
    | row0 :: _ =>
        inr (upsert_statement self q row0
               (repeat (placeholder_group self row0) (List.length (as_list values)))
               conflict_keys conflict_columns,
             (b ++ filter bindable (Py.values row0))%list)
    end.
Proof.
  unfold PostgresSchemaGrammar.compile_upsert.
  destruct (as_list values) as [|row0 rest]; [reflexivity|].
  cbn [index0]. unfold bind, ret. now rewrite parameterize_run.
Qed.

End PostgresUpsert.

(** For a non-empty list of N rows, both Postgres [compile_upsert]s render
    a VALUES clause of exactly N parenthesized groups, each the placeholder
    group of row 0 with one placeholder per column; [parameterize] is called
    once, on the values of row 0. *)
Lemma postgres_upsert_groups_and_bindings
    (self : Grammar) (q : QueryBuilder) (row0 : dict) (rest : list dict)
    (conflict_keys conflict_columns : list string) :
  let rows := row0 :: rest in
  let groups := repeat (placeholder_group self row0) (List.length rows) in
  let text := upsert_statement self q row0 groups conflict_keys conflict_columns in
  let bound := filter bindable (Py.values row0) in
  run (PostgresQueryGrammar.compile_upsert self q (Rows rows)
         conflict_keys conflict_columns) = inr (text, bound) /\
  run (PostgresSchemaGrammar.compile_upsert self q (Rows rows)
         conflict_keys conflict_columns) = inr (text, bound) /\
  List.length groups = List.length rows /\
  List.length (map (placeholder self) (Py.values row0)) = List.length (keys row0) /\
  (forallb bindable (Py.values row0) = true ->
     map (placeholder self) (Py.values row0)
     = repeat (Self.marker self) (List.length (keys row0)) /\
     bound = Py.values row0 /\
     List.length bound = List.length (keys row0)).
Proof.
  intros rows groups text bound. unfold run.
  rewrite postgres_query_upsert_run, postgres_schema_upsert_run. cbn [as_list rows].
  repeat split.
  - subst groups. apply repeat_length.
  - unfold keys, Py.values. now rewrite !length_map.
  - destruct (placeholders_all_markers self _ H) as [H1 _].
    rewrite H1. unfold keys, Py.values. now rewrite !length_map.
  - subst bound. now destruct (placeholders_all_markers self _ H).
  - subst bound. destruct (placeholders_all_markers self _ H) as [_ H2].
    rewrite H2. unfold keys, Py.values. now rewrite !length_map.
Qed.

Lemma postgres_upsert_groups_and_bindings_witness :
  map (placeholder (PostgresQueryGrammar.grammar "")) (Py.values example_row)
  = ["%s"; "%s"]
  /\ filter bindable (Py.values example_row) = [VInt 1; VStr "a"].
Proof.
  destruct (postgres_upsert_groups_and_bindings (PostgresQueryGrammar.grammar "")
              plain_query example_row [example_row] ["id"] ["name"])
    as [_ [_ [_ [_ H]]]].
  destruct (H eq_refl) as [H1 [H2 _]].
  split; [exact H1 | exact H2].
Defined.


(** C3 fails as stated: the conflict target comes out as it was passed,
    without the quote character. *)
Lemma postgres_upsert_example_target_not_quoted :
  run (PostgresQueryGrammar.compile_upsert (PostgresQueryGrammar.grammar "")
         plain_query (OneRow example_row) ["id"] ["name"])
  = inr (upsert_text_plain_target "%s", [VInt 1; VStr "a"])
  /\ upsert_text_plain_target "%s" <> upsert_text_quoted_target "%s".
Proof. split; [reflexivity | vm_compute; discriminate]. Qed.

(** C3, as the code has it: the example upsert yields the INSERT with the
    quoted table and columns, one marker per value, and the conflict target
    and the updated column unquoted, binding 1 and a in that order. *)
Theorem postgres_upsert_text_plain_target (m : string) :
  run (PostgresQueryGrammar.compile_upsert (postgres_with_marker m)
         plain_query (OneRow example_row) ["id"] ["name"])
  = inr (upsert_text_plain_target m, [VInt 1; VStr "a"]).
Proof.
  unfold run. rewrite postgres_query_upsert_run. cbn.
  unfold upsert_text_plain_target, upsert_text, upsert_statement. cbn.
  rewrite !append_assoc. reflexivity.
Qed.

(** ** Stripping *)

Section Stripping.

Lemma lstrip_first (s : string) : space_opt (first_char (lstrip s)) = false.
Proof.
  induction s as [|c s IH]; [reflexivity|].
  cbn [lstrip]. destruct (isspace c) eqn:E; [exact IH | exact E].
Qed.

Lemma rstrip_last (s : string) : space_opt (last_char (rstrip s)) = false.
Proof.
  induction s as [|c s IH]; [reflexivity|].
  cbn [rstrip]. destruct (rstrip s) as [|c' r] eqn:E.
  - destruct (isspace c) eqn:Ec; [reflexivity | exact Ec].
  - exact IH.
Qed.

Lemma rstrip_first (s : string) :
  space_opt (first_char s) = false -> space_opt (first_char (rstrip s)) = false.
Proof.
  destruct s as [|c s]; [reflexivity|].
  cbn [rstrip first_char space_opt]. intros Hc.
  destruct (rstrip s); [now rewrite Hc | exact Hc].
Qed.

Lemma strip_clean_edges (s : string) : clean_edges (strip s).
Proof.
  split; unfold strip.
  - apply rstrip_first, lstrip_first.
  - apply rstrip_last.
Qed.

Lemma lstrip_nonspace (c : ascii) (s : string) :
  isspace c = false -> lstrip (String c s) = String c s.
Proof. intros H. cbn. now rewrite H. Qed.

(** A string that ends with a character other than white space is its own
    [rstrip]. *)
Lemma rstrip_clean (s : string) :
  s <> "" -> space_opt (last_char s) = false -> rstrip s = s.
Proof.
  induction s as [|c s IH]; [congruence|].
  intros _ Hlast. cbn [rstrip].
  destruct s as [|c' s'].
  - cbn in *. now rewrite Hlast.
  - rewrite IH; [reflexivity | discriminate | exact Hlast].
Qed.

Lemma rstrip_append_keep (a s : string) :
  rstrip s <> "" -> rstrip (a ++ s) = a ++ rstrip s.
Proof.
  intros ne. induction a as [|c a IH]; [reflexivity|].
  cbn [append rstrip]. rewrite IH.
  destruct (a ++ rstrip s) eqn:E; [|reflexivity].
  destruct a; cbn in E; [contradiction | discriminate].
Qed.

Lemma rstrip_append_blank (a s : string) :
  rstrip s = "" -> rstrip (a ++ s) = rstrip a.
Proof.
  intros blank. induction a as [|c a IH]; [exact blank|].
  cbn [append rstrip]. now rewrite IH.
Qed.

Lemma rstrip_append_clean (a s : string) :
  s <> "" -> space_opt (last_char s) = false -> rstrip (a ++ s) = a ++ s.
Proof.
  intros ne Hlast.
  rewrite rstrip_append_keep; rewrite (rstrip_clean s ne Hlast); auto.
Qed.

End Stripping.

(** ** Sequencing of renderers *)

Section Yields.

Context {A B : Type}.

Lemma yields_ret (a : A) : yields (ret a) a.
Proof. intros b. now exists b. Qed.

Lemma yields_bind (m : G A) (k : A -> G B) (a : A) (c : B) :
  yields m a -> yields (k a) c -> yields (bind m k) c.
Proof.
  intros Hm Hk b. unfold bind.
  destruct (Hm b) as [b1 ->]. apply Hk.
Qed.

End Yields.

Lemma yields_mapM {A B} (f : A -> G B) (g : A -> B) (l : list A) :
  (forall x, In x l -> yields (f x) (g x)) ->
  yields (mapM f l) (map g l).
Proof.
  induction l as [|x l IH]; intros H.
  - apply yields_ret.
  - cbn [mapM map].
    apply yields_bind with (a := g x); [apply H; now left|].
    apply yields_bind with (a := map g l); [apply IH; intros; apply H; now right|].
    apply yields_ret.
Qed.

Lemma yields_parameter (self : Grammar) (v : value) :
  yields (BaseGrammar.parameter self v) (placeholder self v).
Proof. intros b. rewrite parameter_run. eauto. Qed.

Lemma lstrip_clean (s : string) :
  space_opt (first_char s) = false -> lstrip s = s.
Proof.
  destruct s as [|c s]; [reflexivity|]. cbn. now intros ->.
Qed.

(** ** DELETE in the MySQL dialect *)

(** C6: with joins the statement is DELETE table FROM table joins wheres,
    without joins it is DELETE FROM table wheres, stripped; the orders
    fragment and then the limit fragment follow when the statement has them.
    The stripped part never starts or ends with white space: with empty
    wheres the separating blank is removed, with wheres that end in a
    visible character nothing is removed. *)
Theorem mysql_compile_delete_shape
    (self : Grammar) (super : QueryGrammar.Inherited) (q : QueryBuilder)
    (w j o l : string) :
  (is_list (wheres q) = true -> yields (QueryGrammar._compile_wheres super q) w) ->
  (nonempty (joins q) = true ->
     yields (QueryGrammar._compile_joins super q (joins q)) j) ->
  (nonempty (orders q) = true ->
     yields (QueryGrammar._compile_orders super q (orders q)) o) ->
  (nonzero (limit_ q) = true ->
     yields (QueryGrammar._compile_limit super q (limit_ q)) l) ->
  let table := BaseGrammar.wrap_table self (from__ q) in
  let wheres_sql := if is_list (wheres q) then w else "" in
  let front := if nonempty (joins q)
               then "DELETE " ++ table ++ " FROM " ++ table ++ " " ++ j
               else "DELETE FROM " ++ table in
  let tail := (if nonempty (orders q) then " " ++ o else "")
              ++ (if nonzero (limit_ q) then " " ++ l else "") in
  yields (MySQLQueryGrammar.compile_delete self super q)
         (strip (front ++ " " ++ wheres_sql) ++ tail) /\
  clean_edges (strip (front ++ " " ++ wheres_sql)) /\
  (wheres_sql <> "" -> space_opt (last_char wheres_sql) = false ->
     strip (front ++ " " ++ wheres_sql) = front ++ " " ++ wheres_sql) /\
  (wheres_sql = "" -> strip (front ++ " " ++ wheres_sql) = strip front).
Proof.
  intros Hw Hj Ho Hl table wheres_sql front tail.
  assert (Hfront : space_opt (first_char front) = false)
    by (subst front; destruct (nonempty (joins q)); reflexivity).
  assert (Hfirst : forall s, space_opt (first_char (front ++ s)) = false)
    by (intros s; subst front; destruct (nonempty (joins q)); reflexivity).
  split; [|split; [apply strip_clean_edges|split]].
  - unfold MySQLQueryGrammar.compile_delete.
    apply yields_bind with (a := wheres_sql).
    { subst wheres_sql. destruct (is_list (wheres q));
        [now apply Hw | apply yields_ret]. }
    apply yields_bind with (a := front ++ " " ++ wheres_sql).
    { subst front. fold table. destruct (nonempty (joins q)).
      - apply yields_bind with (a := j); [now apply Hj|].
        cbn zeta. rewrite !append_assoc. apply yields_ret.
      - rewrite !append_assoc. apply yields_ret. }
    cbn zeta. subst tail.
    set (head := strip (front ++ " " ++ wheres_sql)).
    set (ord := if nonempty (orders q) then " " ++ o else "").
    set (lim := if nonzero (limit_ q) then " " ++ l else "").
    rewrite <- (append_assoc head ord lim).
    apply yields_bind with (a := head ++ ord).
    { subst ord. destruct (nonempty (orders q)).
      - apply yields_bind with (a := o); [now apply Ho | apply yields_ret].
      - rewrite append_nil_r. apply yields_ret. }
    apply yields_bind with (a := (head ++ ord) ++ lim); [|apply yields_ret].
    subst lim. destruct (nonzero (limit_ q)).
    + apply yields_bind with (a := l); [now apply Hl | apply yields_ret].
    + rewrite append_nil_r. apply yields_ret.
  - intros ne Hlast. unfold strip. rewrite lstrip_clean by apply Hfirst.
    rewrite <- append_assoc. rewrite rstrip_append_clean by assumption.
    now rewrite append_assoc.
  - intros ->. unfold strip. rewrite !lstrip_clean by (apply Hfirst || apply Hfront).
    now apply rstrip_append_blank.
Qed.

Lemma mysql_compile_delete_shape_witness :
  yields (MySQLQueryGrammar.compile_delete (MySQLQueryGrammar.grammar "")
            fixed_renderers joined_query)
         "DELETE `t` FROM `t` INNER JOIN `u` ON `t`.`id` = `u`.`t_id` WHERE `id` = %s"
  /\ yields (MySQLQueryGrammar.compile_delete (MySQLQueryGrammar.grammar "")
               fixed_renderers unjoined_query)
            "DELETE FROM `t` WHERE `id` = %s".
Proof.
  split.
  - destruct (mysql_compile_delete_shape (MySQLQueryGrammar.grammar "")
                fixed_renderers joined_query "WHERE `id` = %s"
                "INNER JOIN `u` ON `t`.`id` = `u`.`t_id`" "" "") as [H _].
    + intros _ b. eexists. reflexivity.
    + intros _ b. eexists. reflexivity.
    + discriminate.
    + discriminate.
    + exact H.
  - destruct (mysql_compile_delete_shape (MySQLQueryGrammar.grammar "")
                fixed_renderers unjoined_query "WHERE `id` = %s" "" "" "") as [H _].
    + intros _ b. eexists. reflexivity.
    + discriminate.
    + discriminate.
    + discriminate.
    + exact H.
Defined.

(** ** UPDATE in the Postgres dialect *)

Lemma lower_append (a b : string) : lower (a ++ b) = lower a ++ lower b.
Proof. induction a as [|c a IH]; cbn; [reflexivity | now rewrite IH]. Qed.

(** A leading connector, in any letter case, is removed together with the
    blank after it. *)
Lemma remove_leading_boolean_connector (conn s : string) :
  lower conn = "and" \/ lower conn = "or" ->
  BaseGrammar._remove_leading_boolean (conn ++ " " ++ s) = s.
Proof.
  unfold BaseGrammar._remove_leading_boolean, startswith.
  intros [H|H]; rewrite lower_append, H.
  - destruct conn as [|c1 [|c2 [|c3 [|c4 conn]]]]; try discriminate.
    cbn. now destruct (lower s).
  - destruct conn as [|c1 [|c2 [|c3 conn]]]; try discriminate.
    cbn. now destruct (lower s).
Qed.

Lemma join_cons_append (sep x : string) (l : list string) :
  l <> [] -> join sep (x :: l) = x ++ sep ++ join sep l.
Proof. destruct l; [congruence | reflexivity]. Qed.

Lemma postgres_update_columns_yields (self : Grammar) (values : dict) :
  yields (PostgresQueryGrammar._compile_update_columns self values)
         (join ", " (map (fun kv : string * value =>
                            BaseGrammar.wrap self (fst kv) ++ " = "
                            ++ placeholder self (snd kv)) values)).
Proof.
  unfold PostgresQueryGrammar._compile_update_columns.
  eapply yields_bind; [|apply yields_ret].
  apply yields_mapM. intros kv _.
  eapply yields_bind; [apply yields_parameter | apply yields_ret].
Qed.

Lemma postgres_update_from_joins (self : Grammar) (q : QueryBuilder) :
  joins q <> [] ->
  PostgresQueryGrammar._compile_update_from self q
  = " FROM " ++ join ", " (map (fun j => BaseGrammar.wrap_table self (table j))
                               (joins q)).
Proof.
  unfold PostgresQueryGrammar._compile_update_from.
  destruct (joins q) as [|j js]; [congruence | reflexivity].
Qed.

(** C7: for a statement with joins the Postgres UPDATE lists the wrapped
    table of every join, in order, in a FROM list after the SET clause, and
    appends the rendered ON-constraints of the joins, in order, to the WHERE
    text; when the statement's own wheres are blank the text is WHERE
    followed by the constraints with the connector that leads the first one
    removed. *)
Theorem postgres_compile_update_with_joins
    (self : Grammar) (super : QueryGrammar.Inherited) (q : QueryBuilder)
    (values : dict) (base_where : string) (constraint : Clause -> string) :
  joins q <> [] ->
  yields (QueryGrammar._compile_wheres super q) base_where ->
  (forall c, In c (flat_map clauses (joins q)) ->
     yields (QueryGrammar._compile_join_constraints super c) (constraint c)) ->
  let tbl := BaseGrammar.wrap_table self (from__ q) in
  let cols := join ", " (map (fun kv : string * value =>
                                BaseGrammar.wrap self (fst kv) ++ " = "
                                ++ placeholder self (snd kv)) values) in
  let froms := map (fun j => BaseGrammar.wrap_table self (table j)) (joins q) in
  let predicates := map constraint (flat_map clauses (joins q)) in
  let where_sql :=
    if strip base_where =? ""
    then "WHERE " ++ BaseGrammar._remove_leading_boolean (join " " predicates)
    else base_where ++ " " ++ join " " predicates in
  yields (PostgresQueryGrammar.compile_update self super q values)
         (strip ("UPDATE " ++ tbl ++ " SET " ++ cols ++ " FROM "
                 ++ join ", " froms ++ " " ++ where_sql)) /\
  List.length froms = List.length (joins q) /\
  (forall conn pred rest,
     lower conn = "and" \/ lower conn = "or" ->
     predicates = (conn ++ " " ++ pred) :: rest ->
     strip base_where = "" ->
     where_sql = "WHERE " ++ join " " (pred :: rest)).
Proof.
  intros Hjoins Hwheres Hclauses tbl cols froms predicates where_sql.
  split; [|split].
  - unfold PostgresQueryGrammar.compile_update.
    apply yields_bind with (a := cols);
      [apply postgres_update_columns_yields|].
    cbn zeta. rewrite postgres_update_from_joins by assumption.
    apply yields_bind with (a := where_sql).
    + unfold PostgresQueryGrammar._compile_update_wheres.
      apply yields_bind with (a := base_where); [assumption|].
      destruct (joins q) as [|j0 js] eqn:Ej; [congruence|].
      cbn [nonempty negb].
      apply yields_bind with (a := join " " predicates).
      * unfold PostgresQueryGrammar._compile_update_join_wheres.
        rewrite Ej.
        apply yields_bind with (a := predicates); [|apply yields_ret].
        apply yields_mapM. exact Hclauses.
      * subst where_sql. destruct (strip base_where =? ""); apply yields_ret.
    + fold tbl froms. rewrite !append_assoc. apply yields_ret.
  - subst froms. apply length_map.
  - intros conn pred rest Hconn Hpred Hblank. subst where_sql.
    rewrite Hblank, Hpred. cbn [String.eqb]. f_equal.
    assert (E : join " " ((conn ++ " " ++ pred) :: rest)
                = conn ++ " " ++ join " " (pred :: rest)).
    { destruct rest as [|r rest]; [reflexivity|].
      rewrite !join_cons_append by discriminate.
      now rewrite !append_assoc. }
    rewrite E. now apply remove_leading_boolean_connector.
Qed.

Lemma postgres_compile_update_with_joins_witness :
  yields (PostgresQueryGrammar.compile_update (PostgresQueryGrammar.grammar "")
            fixed_renderers joined_query_no_where [("a", VInt 1)])
         ("UPDATE " ++ dquote ++ "t" ++ dquote ++ " SET " ++ dquote ++ "a" ++ dquote
          ++ " = %s FROM " ++ dquote ++ "u" ++ dquote ++ " WHERE t.id = u.t_id")
  /\ "WHERE " ++ BaseGrammar._remove_leading_boolean "AND t.id = u.t_id"
     = "WHERE t.id = u.t_id".
Proof.
  destruct (postgres_compile_update_with_joins (PostgresQueryGrammar.grammar "")
              fixed_renderers joined_query_no_where [("a", VInt 1)] ""
              (fun c => boolean c ++ " " ++ first c ++ " " ++ operator c
                        ++ " " ++ second c)) as [H [_ H']].
  - discriminate.
  - intros b. eexists. reflexivity.
  - intros c _ b. eexists. reflexivity.
  - split; [exact H|].
    apply (H' "AND" "t.id = u.t_id" []); [now left | reflexivity | reflexivity].
Defined.

(** ** Framing of the parameter binder *)

Section Framed.

Lemma framed_ret {A} (a : A) : framed (ret a).
Proof. intros b. cbn. now rewrite app_nil_r. Qed.

Lemma framed_raise {A} (e : exn) : framed (@raise A e).
Proof. intros b. reflexivity. Qed.

Lemma framed_record (v : value) : framed (record v).
Proof. intros b. reflexivity. Qed.

Lemma framed_bind {A B} (m : G A) (k : A -> G B) :
  framed m -> (forall a, framed (k a)) -> framed (bind m k).
Proof.
  intros Hm Hk b. unfold bind. rewrite (Hm b).
  destruct (m []) as [e|[a ps]]; [reflexivity|].
  rewrite (Hk a (b ++ ps)%list), (Hk a ps).
  destruct (k a []) as [e|[c ps']]; [reflexivity|].
  now rewrite app_assoc.
Qed.

Lemma framed_mapM {A B} (f : A -> G B) (l : list A) :
  (forall x, framed (f x)) -> framed (mapM f l).
Proof.
  intros Hf. induction l as [|x l IH]; cbn [mapM].
  - apply framed_ret.
  - apply framed_bind; [apply Hf|]. intros y.
    apply framed_bind; [apply IH|]. intros ys. apply framed_ret.
Qed.

Lemma framed_parameter (self : Grammar) (v : value) :
  framed (BaseGrammar.parameter self v).
Proof. intros b. now rewrite !parameter_run. Qed.

Lemma framed_parameterize (self : Grammar) (vs : list value) :
  framed (BaseGrammar.parameterize self vs).
Proof. intros b. now rewrite !parameterize_run. Qed.

Lemma framed_index0 {A} (l : list A) : framed (index0 l).
Proof. destruct l; [apply framed_raise | apply framed_ret]. Qed.

Lemma framed_then {R} (s : stmt R) (rest : G R) :
  framed rest -> framed (then_ s rest).
Proof. destruct s; intros H; [apply framed_ret | exact H]. Qed.

End Framed.

Create HintDb framed.

#[local] Hint Resolve framed_ret framed_raise framed_record framed_parameter
  framed_parameterize framed_index0 framed_compile_select framed_compile_insert
  framed_compile_update framed_compile_unions framed_compile_joins
  framed_compile_wheres framed_compile_orders framed_compile_limit
  framed_compile_join_constraints framed_to_sql : framed.

(** Walks a method body: a bind, a conditional, a comprehension, or a leaf
    that the hint database closes. *)
Ltac framed_body :=
  repeat first
    [ solve [auto with framed]
    | apply framed_bind; [|intro]
    | apply framed_mapM; intro
    | apply framed_then
    | match goal with
      | |- framed (if ?c then _ else _) => destruct c
      end ].

Section EntryPoints.

Variable self : Grammar.
Variable super : QueryGrammar.Inherited.
Hypothesis stateless : framed_renderers super.

Lemma mysql_compile_select_framed q :
  framed (MySQLQueryGrammar.compile_select super q).
Proof. unfold MySQLQueryGrammar.compile_select. framed_body. Qed.

Lemma mysql_compile_union_framed u :
  framed (MySQLQueryGrammar._compile_union super u).
Proof. unfold MySQLQueryGrammar._compile_union. framed_body. Qed.

Lemma mysql_compile_upsert_framed q values ck cc :
  framed (MySQLQueryGrammar.compile_upsert self q values ck cc).
Proof.
  unfold MySQLQueryGrammar.compile_upsert, MySQLQueryGrammar.compile_upsert_rest,
    MySQLQueryGrammar.format_pair.
  framed_body.
Qed.

Lemma mysql_compile_update_framed q values :
  framed (MySQLQueryGrammar.compile_update super q values).
Proof. unfold MySQLQueryGrammar.compile_update. framed_body. Qed.

Lemma mysql_compile_delete_framed q :
  framed (MySQLQueryGrammar.compile_delete self super q).
Proof. unfold MySQLQueryGrammar.compile_delete. framed_body. Qed.

Lemma postgres_compile_update_framed q values :
  framed (PostgresQueryGrammar.compile_update self super q values).
Proof.
  unfold PostgresQueryGrammar.compile_update,
    PostgresQueryGrammar._compile_update_columns,
    PostgresQueryGrammar._compile_update_wheres,
    PostgresQueryGrammar._compile_update_join_wheres.
  framed_body.
Qed.

Lemma postgres_compile_insert_get_id_framed q values sequence :
  framed (PostgresQueryGrammar.compile_insert_get_id self super q values sequence).
Proof. unfold PostgresQueryGrammar.compile_insert_get_id. framed_body. Qed.

Lemma postgres_compile_upsert_framed q values ck cc :
  framed (PostgresQueryGrammar.compile_upsert self q values ck cc).
Proof. intros b. rewrite !postgres_query_upsert_run. now destruct (as_list values). Qed.

Lemma postgres_schema_compile_upsert_framed q values ck cc :
  framed (PostgresSchemaGrammar.compile_upsert self q values ck cc).
Proof. intros b. rewrite !postgres_schema_upsert_run. now destruct (as_list values). Qed.

End EntryPoints.

Lemma fixed_renderers_framed : framed_renderers fixed_renderers.
Proof.
  constructor; cbn; intros; try apply framed_ret.
  destruct (wheres q) as [[|x l]|]; try apply framed_ret.
  apply framed_bind; [apply framed_record | intro; apply framed_ret].
Qed.

Example mysql_select_twice :
  forall b,
    MySQLQueryGrammar.compile_select fixed_renderers union_query b
    = inr ("(SELECT * FROM `t`) UNION (SELECT * FROM `u`)", b).
Proof. reflexivity. Qed.

Example postgres_update_twice :
  let m := PostgresQueryGrammar.compile_update (PostgresQueryGrammar.grammar "")
             fixed_renderers joined_query [("a", VInt 1)] in
  let text := "UPDATE " ++ dquote ++ "t" ++ dquote ++ " SET " ++ dquote ++ "a"
              ++ dquote ++ " = %s FROM " ++ dquote ++ "u" ++ dquote
              ++ " WHERE `id` = %s AND t.id = u.t_id" in
  m [] = inr (text, [VInt 1; VInt 5]) /\
  m [VInt 1; VInt 5] = inr (text, [VInt 1; VInt 5; VInt 1; VInt 5]).
Proof. split; reflexivity. Qed.

(** * Further properties of the dialect code *)

(** ** Quoting of identifiers in the MySQL dialect *)

Section Quoting.

Lemma length_append (a b : string) :
  String.length (a ++ b) = String.length a + String.length b.
Proof. induction a as [|c a IH]; cbn; [reflexivity | now rewrite IH]. Qed.

Lemma append_cancel_r (a b c : string) : a ++ c = b ++ c -> a = b.
Proof.
  revert b. induction a as [|x a IH]; intros [|y b] H; cbn in H.
  - reflexivity.
  - apply (f_equal String.length) in H. cbn in H.
    rewrite length_append in H. lia.
  - apply (f_equal String.length) in H. cbn in H.
    rewrite length_append in H. lia.
  - injection H as -> H. now rewrite (IH b H).
Qed.

Lemma doubled_injective (q : ascii) (s t : string) :
  doubled q s = doubled q t -> s = t.
Proof.
  revert t. induction s as [|c s IH]; intros [|d t]; cbn.
  - reflexivity.
  - destruct (Ascii.eqb d q); discriminate.
  - destruct (Ascii.eqb c q); discriminate.
  - destruct (Ascii.eqb_spec c q) as [->|nc], (Ascii.eqb_spec d q) as [->|nd];
      intros H; injection H; intros; subst; try congruence.
    + f_equal. now apply IH.
    + f_equal. now apply IH.
Qed.

Lemma count_char_append (q : ascii) (a b : string) :
  count_char q (a ++ b) = count_char q a + count_char q b.
Proof. induction a as [|c a IH]; cbn; [reflexivity | rewrite IH; lia]. Qed.

Lemma count_char_doubled (q : ascii) (s : string) :
  count_char q (doubled q s) = 2 * count_char q s.
Proof.
  induction s as [|c s IH]; [reflexivity|]. cbn [doubled count_char].
  destruct (Ascii.eqb c q) eqn:E; cbn [count_char].
  - rewrite Ascii.eqb_refl, IH. lia.
  - rewrite E, IH. lia.
Qed.

Lemma length_doubled (q : ascii) (s : string) :
  String.length (doubled q s) = String.length s + count_char q s.
Proof.
  induction s as [|c s IH]; [reflexivity|]. cbn [doubled count_char].
  destruct (Ascii.eqb c q); cbn [String.length]; rewrite IH; lia.
Qed.

End Quoting.

(** X1: the MySQL quoting loses nothing: two identifiers with the same
    quoted text are the same identifier. *)
Theorem mysql_wrap_value_injective (s t : string) :
  MySQLQueryGrammar._wrap_value s = MySQLQueryGrammar._wrap_value t -> s = t.
Proof.
  unfold MySQLQueryGrammar._wrap_value.
  rewrite !(replace_char_doubled "`").
  destruct (String.eqb_spec s "*") as [->|ns], (String.eqb_spec t "*") as [->|nt].
  - reflexivity.
  - discriminate.
  - discriminate.
  - cbn. intros H. injection H as H.
    apply append_cancel_r in H. now apply doubled_injective in H.
Qed.

Lemma mysql_wrap_value_injective_witness : "a`b" = "a`b".
Proof. apply mysql_wrap_value_injective. reflexivity. Defined.

(** X2: a quoted identifier other than [*] holds an even number of
    backticks, two for the delimiters and two for each backtick of the
    identifier, and is longer than the identifier by two plus the number of
    its backticks; so quoting a quoted identifier again never gives it
    back. *)
Theorem mysql_wrap_value_balanced (s : string) :
  s <> "*" ->
  count_char "`" (MySQLQueryGrammar._wrap_value s) = 2 + 2 * count_char "`" s /\
  String.length (MySQLQueryGrammar._wrap_value s)
  = String.length s + count_char "`" s + 2 /\
  MySQLQueryGrammar._wrap_value (MySQLQueryGrammar._wrap_value s)
  <> MySQLQueryGrammar._wrap_value s.
Proof.
  intros ns.
  assert (L : forall u, u <> "*" ->
            String.length (MySQLQueryGrammar._wrap_value u)
            = String.length u + count_char "`" u + 2).
  { intros u nu. rewrite mysql_wrap_value_quoted by assumption.
    cbn [append String.length]. rewrite length_append, length_doubled.
    cbn [String.length]. lia. }
  split; [|split].
  - rewrite mysql_wrap_value_quoted by assumption.
    cbn [append count_char]. rewrite Ascii.eqb_refl.
    rewrite count_char_append, count_char_doubled. cbn. lia.
  - now apply L.
  - intros H. apply (f_equal String.length) in H.
    rewrite (L (MySQLQueryGrammar._wrap_value s)) in H.
    + lia.
    + rewrite mysql_wrap_value_quoted by assumption. discriminate.
Qed.

Lemma mysql_wrap_value_balanced_witness :
  count_char "`" (MySQLQueryGrammar._wrap_value "a`b") = 4 /\
  String.length (MySQLQueryGrammar._wrap_value "a`b") = 6.
Proof.
  destruct (mysql_wrap_value_balanced "a`b") as [H1 [H2 _]]; [discriminate|].
  split; [exact H1 | exact H2].
Defined.

(** ** Lock clauses of the two dialects *)

(** X3: the Postgres lock clause is a string for every lock value, and the
    two dialects give the same clause exactly for a string and for
    [True]. *)
Theorem compile_lock_dialects_agree (q : QueryBuilder) (v : value) :
  (exists s, PostgresQueryGrammar._compile_lock q v = VStr s) /\
  (MySQLQueryGrammar._compile_lock q v = PostgresQueryGrammar._compile_lock q v
   <-> (exists s, v = VStr s) \/ v = VBool true).
Proof.
  split.
  - unfold PostgresQueryGrammar._compile_lock.
    destruct v; cbn [is_basestring]; eauto; destruct (truthy _); eauto.
  - unfold MySQLQueryGrammar._compile_lock, PostgresQueryGrammar._compile_lock.
    destruct v as [| [|] | z | s | l | raw]; cbn; split;
      try (intros _; eauto; fail);
      try (intros [[s' E]|E]; discriminate);
      try discriminate;
      try (destruct (negb _); discriminate);
      try (destruct l; discriminate).
Qed.

Lemma compile_lock_dialects_agree_witness :
  MySQLQueryGrammar._compile_lock plain_query (VBool true)
  = PostgresQueryGrammar._compile_lock plain_query (VBool true).
Proof.
  destruct (compile_lock_dialects_agree plain_query (VBool true)) as [_ [_ H]].
  apply H. now right.
Defined.

(** ** More on upsert *)

(** X5: of the rows after the first only the number counts: two row lists
    with the same first row and the same length give the same outcome, in
    the MySQL grammar and in both Postgres grammars. *)
Theorem upsert_reads_first_row_only
    (self : Grammar) (q : QueryBuilder) (row0 : dict) (rest rest' : list dict)
    (conflict_keys conflict_columns : list string) (b : list value) :
  List.length rest = List.length rest' ->
  MySQLQueryGrammar.compile_upsert self q (Rows (row0 :: rest))
    conflict_keys conflict_columns b
  = MySQLQueryGrammar.compile_upsert self q (Rows (row0 :: rest'))
      conflict_keys conflict_columns b /\
  PostgresQueryGrammar.compile_upsert self q (Rows (row0 :: rest))
    conflict_keys conflict_columns b
  = PostgresQueryGrammar.compile_upsert self q (Rows (row0 :: rest'))
      conflict_keys conflict_columns b /\
  PostgresSchemaGrammar.compile_upsert self q (Rows (row0 :: rest))
    conflict_keys conflict_columns b
  = PostgresSchemaGrammar.compile_upsert self q (Rows (row0 :: rest'))
      conflict_keys conflict_columns b.
Proof.
  intros E.
  rewrite !mysql_compile_upsert_run, ?postgres_query_upsert_run,
    ?postgres_schema_upsert_run.
  cbn [as_list List.length]. rewrite E. auto.
Qed.

Lemma upsert_reads_first_row_only_witness :
  PostgresQueryGrammar.compile_upsert (PostgresQueryGrammar.grammar "") plain_query
    (Rows [example_row; example_row]) ["id"] ["name"] []
  = PostgresQueryGrammar.compile_upsert (PostgresQueryGrammar.grammar "") plain_query
      (Rows [example_row; [("other", VNone)]]) ["id"] ["name"] [].
Proof.
  destruct (upsert_reads_first_row_only (PostgresQueryGrammar.grammar "")
              plain_query example_row [example_row] [[("other", VNone)]]
              ["id"] ["name"] []) as [_ [H _]]; [reflexivity | exact H].
Defined.

(** X6: both Postgres [compile_upsert]s raise exactly on an empty row list,
    and what they raise is [IndexError]; on any other input they return a
    statement. *)
Theorem postgres_upsert_raises_on_empty_list
    (self : Grammar) (q : QueryBuilder) (values : upsert_values)
    (conflict_keys conflict_columns : list string) (b : list value) :
  let query_call := PostgresQueryGrammar.compile_upsert self q values
                      conflict_keys conflict_columns b in
  let schema_call := PostgresSchemaGrammar.compile_upsert self q values
                       conflict_keys conflict_columns b in
  (values = Rows [] -> query_call = inl IndexError /\ schema_call = inl IndexError) /\
  (values <> Rows [] ->
     exists text b', query_call = inr (text, b') /\ schema_call = inr (text, b')).
Proof.
  cbv zeta. rewrite ?postgres_query_upsert_run, ?postgres_schema_upsert_run.
  split.
  - intros ->. now split.
  - intros ne. destruct values as [r | [|r l]]; cbn [as_list];
      [eauto | congruence | eauto].
Qed.

Lemma postgres_upsert_raises_on_empty_list_witness :
  PostgresQueryGrammar.compile_upsert (PostgresQueryGrammar.grammar "") plain_query
    (Rows []) ["id"] ["name"] [] = inl IndexError.
Proof.
  destruct (postgres_upsert_raises_on_empty_list (PostgresQueryGrammar.grammar "")
              plain_query (Rows []) ["id"] ["name"] []) as [H _].
  now destruct (H eq_refl).
Defined.

(** X7: the MySQL [compile_upsert] does not look at its conflict arguments,
    and the Postgres statement is put together from the very two strings it
    returns: whenever the MySQL call returns the tuple [(c, p)], the Postgres
    call on the same rows returns INSERT INTO table (c) VALUES p followed by
    its conflict clause, with the same values bound. *)
Theorem upsert_postgres_statement_from_mysql_tuple
    (self : Grammar) (q : QueryBuilder) (values : upsert_values)
    (keys' columns' conflict_keys conflict_columns : list string)
    (b b' : list value) (c p : string) :
  MySQLQueryGrammar.compile_upsert self q values keys' columns' b
  = inr (MySQLQueryGrammar.Tuple c p, b') ->
  MySQLQueryGrammar.compile_upsert self q values conflict_keys conflict_columns b
  = inr (MySQLQueryGrammar.Tuple c p, b') /\
  PostgresQueryGrammar.compile_upsert self q values conflict_keys conflict_columns b
  = inr ("INSERT INTO " ++ BaseGrammar.wrap_table self (from__ q)
         ++ " (" ++ c ++ ") VALUES " ++ p
         ++ " ON CONFLICT (" ++ join ", " conflict_keys ++ ") DO UPDATE SET "
         ++ join ", " (map (fun col => col ++ " = EXCLUDED." ++ col) conflict_columns),
         b').
Proof.
  rewrite !mysql_compile_upsert_run, postgres_query_upsert_run.
  destruct (as_list values) as [|row0 rest]; [discriminate|].
  intros H. injection H as <- <- <-. split; reflexivity.
Qed.

Lemma upsert_postgres_statement_from_mysql_tuple_witness :
  let self := PostgresQueryGrammar.grammar "" in
  PostgresQueryGrammar.compile_upsert self plain_query (OneRow example_row)
    ["id"] ["name"] []
  = inr ("INSERT INTO " ++ BaseGrammar.wrap_table self (from__ plain_query)
         ++ " (" ++ BaseGrammar.columnize self ["id"; "name"] ++ ") VALUES "
         ++ "(%s, %s)" ++ " ON CONFLICT (id) DO UPDATE SET name = EXCLUDED.name",
         [VInt 1; VStr "a"]).
Proof.
  intros self.
  destruct (upsert_postgres_statement_from_mysql_tuple self plain_query
              (OneRow example_row) [] [] ["id"] ["name"] [] [VInt 1; VStr "a"]
              (BaseGrammar.columnize self ["id"; "name"]) "(%s, %s)")
    as [_ H]; [reflexivity | exact H].
Defined.

(** X8: degenerate upserts are rendered, not rejected: with no conflict
    column the Postgres statement stops after DO UPDATE SET and a blank, and
    with a first row that has no column every VALUES group is a pair of
    empty parentheses and nothing is bound. *)
Theorem postgres_upsert_degenerate_inputs
    (self : Grammar) (q : QueryBuilder) (row0 : dict) (rest : list dict)
    (conflict_keys conflict_columns : list string) (b : list value) :
  (conflict_columns = [] ->
     exists front b',
       PostgresQueryGrammar.compile_upsert self q (Rows (row0 :: rest))
         conflict_keys conflict_columns b
       = inr (front ++ " DO UPDATE SET ", b')) /\
  (row0 = [] ->
     PostgresQueryGrammar.compile_upsert self q (Rows (row0 :: rest))
       conflict_keys conflict_columns b
     = inr ("INSERT INTO " ++ BaseGrammar.wrap_table self (from__ q)
            ++ " () VALUES " ++ join ", " (repeat "()" (S (List.length rest)))
            ++ " ON CONFLICT (" ++ join ", " conflict_keys ++ ") DO UPDATE SET "
            ++ join ", " (map (fun col => col ++ " = EXCLUDED." ++ col)
                              conflict_columns),
            b)).
Proof.
  rewrite postgres_query_upsert_run. cbn [as_list]. split.
  - intros ->. unfold upsert_statement. cbn [map join String.concat].
    exists ("INSERT INTO " ++ BaseGrammar.wrap_table self (from__ q)
            ++ " (" ++ BaseGrammar.columnize self (keys row0) ++ ") VALUES "
            ++ join ", " (repeat (placeholder_group self row0)
                                 (List.length (row0 :: rest)))
            ++ " ON CONFLICT (" ++ join ", " conflict_keys ++ ")").
    eexists. rewrite append_nil_r, !append_assoc. reflexivity.
  - intros ->. cbn. now rewrite app_nil_r.
Qed.

Lemma postgres_upsert_degenerate_inputs_witness :
  PostgresQueryGrammar.compile_upsert (PostgresQueryGrammar.grammar "") plain_query
    (Rows [[]; []]) ["id"] [] []
  = inr ("INSERT INTO " ++ dquote ++ "table" ++ dquote
         ++ " () VALUES (), () ON CONFLICT (id) DO UPDATE SET ", []).
Proof.
  destruct (postgres_upsert_degenerate_inputs (PostgresQueryGrammar.grammar "")
              plain_query [] [[]] ["id"] [] []) as [_ H].
  exact (H eq_refl).
Defined.

(** ** More on UPDATE in the Postgres dialect *)

Section PostgresUpdate.

Variable self : Grammar.
Variable super : QueryGrammar.Inherited.

Lemma postgres_update_columns_run (values : dict) (b : list value) :
  PostgresQueryGrammar._compile_update_columns self values b
  = inr (set_clause self values, (b ++ filter bindable (Py.values values))%list).
Proof.
  unfold PostgresQueryGrammar._compile_update_columns, set_clause, bind at 1.
  assert (E : forall l b0,
            mapM (fun kv : string * value =>
                    p <- BaseGrammar.parameter self (snd kv) ;;
                    ret (BaseGrammar.wrap self (fst kv) ++ " = " ++ p)) l b0
            = inr (map (fun kv : string * value =>
                          BaseGrammar.wrap self (fst kv) ++ " = "
                          ++ placeholder self (snd kv)) l,
                   (b0 ++ filter bindable (Py.values l))%list)).
  { induction l as [|kv l IH]; intros b0.
    - cbn. unfold ret. now rewrite app_nil_r.
    - cbn [mapM]. unfold bind at 1. unfold bind at 1.
      rewrite parameter_run. unfold ret at 1.
      unfold bind at 1. rewrite IH. unfold ret.
      cbn [map Py.values filter]. rewrite <- app_assoc. f_equal. f_equal.
      cbn [filter]. now destruct (bindable (snd kv)). }
  now rewrite E.
Qed.

Lemma postgres_compile_update_run (q : QueryBuilder) (values : dict)
    (b : list value) :
  PostgresQueryGrammar.compile_update self super q values b
  = match PostgresQueryGrammar._compile_update_wheres super q
            (b ++ filter bindable (Py.values values))%list with
    | inl e => inl e
    | inr (w, b') =>
        inr (strip ("UPDATE " ++ BaseGrammar.wrap_table self (from__ q)
                    ++ " SET " ++ set_clause self values
                    ++ PostgresQueryGrammar._compile_update_from self q
                    ++ " " ++ w), b')
    end.
Proof.
  unfold PostgresQueryGrammar.compile_update, bind at 1.
  rewrite postgres_update_columns_run. unfold bind.
  destruct (PostgresQueryGrammar._compile_update_wheres super q _)
    as [e|[w b']]; reflexivity.
Qed.

Lemma strip_front_blank (front : string) :
  space_opt (first_char front) = false ->
  (forall s, space_opt (first_char (front ++ s)) = false) ->
  strip (front ++ " " ++ "") = strip front.
Proof.
  intros H1 H2. unfold strip. rewrite !lstrip_clean by auto.
  now apply rstrip_append_blank.
Qed.

End PostgresUpdate.

(** X9: in a Postgres update the values of the SET clause are bound first,
    in the order of the dict, a raw expression being inlined and not bound;
    the where part is compiled after them, and the call raises exactly when
    the where part raises. *)
Theorem postgres_update_binds_set_values_first
    (self : Grammar) (super : QueryGrammar.Inherited) (q : QueryBuilder)
    (values : dict) (b : list value) :
  PostgresQueryGrammar.compile_update self super q values b
  = match PostgresQueryGrammar._compile_update_wheres super q
            (b ++ filter bindable (Py.values values))%list with
    | inl e => inl e
    | inr (w, b') =>
        inr (strip ("UPDATE " ++ BaseGrammar.wrap_table self (from__ q)
                    ++ " SET " ++ set_clause self values
                    ++ PostgresQueryGrammar._compile_update_from self q
                    ++ " " ++ w), b')
    end.
Proof. apply postgres_compile_update_run. Qed.

(** X10: for a statement without joins the Postgres update has no FROM list
    and its where part is the inherited where clause; when that clause is
    empty the statement ends right after the SET clause, with no blank left
    behind. *)
Theorem postgres_compile_update_without_joins
    (self : Grammar) (super : QueryGrammar.Inherited) (q : QueryBuilder)
    (values : dict) (b b' : list value) (w : string) :
  joins q = [] ->
  QueryGrammar._compile_wheres super q
    (b ++ filter bindable (Py.values values))%list = inr (w, b') ->
  let front := "UPDATE " ++ BaseGrammar.wrap_table self (from__ q)
               ++ " SET " ++ set_clause self values in
  PostgresQueryGrammar.compile_update self super q values b
  = inr (strip (front ++ " " ++ w), b') /\
  clean_edges (strip (front ++ " " ++ w)) /\
  (w = "" -> strip (front ++ " " ++ w) = strip front).
Proof.
  intros Hj Hw front. split; [|split].
  - rewrite postgres_compile_update_run.
    unfold PostgresQueryGrammar._compile_update_wheres,
      PostgresQueryGrammar._compile_update_from, bind.
    rewrite Hw, Hj. cbn [nonempty negb]. unfold ret. subst front.
    now rewrite !append_assoc.
  - apply strip_clean_edges.
  - intros ->. apply strip_front_blank; intros; reflexivity.
Qed.

Lemma postgres_compile_update_without_joins_witness :
  PostgresQueryGrammar.compile_update (PostgresQueryGrammar.grammar "")
    fixed_renderers plain_query [("a", VInt 1); ("b", VExpr "now()")] []
  = inr ("UPDATE " ++ dquote ++ "table" ++ dquote ++ " SET " ++ dquote ++ "a"
         ++ dquote ++ " = %s, " ++ dquote ++ "b" ++ dquote ++ " = now()",
         [VInt 1]).
Proof.
  destruct (postgres_compile_update_without_joins (PostgresQueryGrammar.grammar "")
              fixed_renderers plain_query [("a", VInt 1); ("b", VExpr "now()")]
              [] [VInt 1] "") as [H _]; [reflexivity | reflexivity | exact H].
Defined.

(** X11: the FROM list of a Postgres update is empty exactly when the
    statement has no join; the last [return] of [_compile_update_from] is
    never reached. *)
Theorem postgres_update_from_empty_iff (self : Grammar) (q : QueryBuilder) :
  PostgresQueryGrammar._compile_update_from self q = "" <-> joins q = [].
Proof.
  split.
  - intros H. destruct (joins q) as [|j js] eqn:E; [reflexivity|].
    rewrite postgres_update_from_joins in H by congruence. discriminate.
  - intros E. unfold PostgresQueryGrammar._compile_update_from. now rewrite E.
Qed.

Lemma postgres_update_from_empty_iff_witness :
  PostgresQueryGrammar._compile_update_from (PostgresQueryGrammar.grammar "")
    plain_query = "".
Proof.
  apply (proj2 (postgres_update_from_empty_iff (PostgresQueryGrammar.grammar "")
                  plain_query)).
  reflexivity.
Defined.

(** X12: when the joins of a statement carry no ON-constraint and its own
    wheres are blank, the where part of the Postgres update is the bare word
    WHERE followed by a blank, and the statement ends in WHERE. *)
Theorem postgres_update_dangling_where
    (self : Grammar) (super : QueryGrammar.Inherited) (q : QueryBuilder)
    (values : dict) (w : string) :
  joins q <> [] ->
  flat_map clauses (joins q) = [] ->
  yields (QueryGrammar._compile_wheres super q) w ->
  strip w = "" ->
  yields (PostgresQueryGrammar._compile_update_wheres super q) "WHERE " /\
  yields (PostgresQueryGrammar.compile_update self super q values)
         ("UPDATE " ++ BaseGrammar.wrap_table self (from__ q)
          ++ " SET " ++ set_clause self values ++ " FROM "
          ++ join ", " (map (fun j => BaseGrammar.wrap_table self (table j)) (joins q))
          ++ " WHERE").
Proof.
  intros Hj Hc Hw Hblank.
  assert (W : yields (PostgresQueryGrammar._compile_update_wheres super q) "WHERE ").
  { unfold PostgresQueryGrammar._compile_update_wheres.
    apply yields_bind with (a := w); [assumption|].
    destruct (joins q) as [|j0 js] eqn:Ej; [congruence|].
    cbn [nonempty negb].
    apply yields_bind with (a := "").
    - unfold PostgresQueryGrammar._compile_update_join_wheres.
      rewrite Ej, Hc. cbn [mapM].
      apply yields_bind with (a := @nil string); apply yields_ret.
    - rewrite Hblank. apply yields_ret. }
  split; [exact W|].
  intros b. rewrite postgres_compile_update_run.
  destruct (W (b ++ filter bindable (Py.values values))%list) as [b' ->].
  exists b'. f_equal. f_equal.
  rewrite postgres_update_from_joins by assumption.
  set (J := join ", " _).
  set (front := "UPDATE " ++ BaseGrammar.wrap_table self (from__ q)
                ++ " SET " ++ set_clause self values ++ " FROM " ++ J ++ " WHERE").
  replace ("UPDATE " ++ BaseGrammar.wrap_table self (from__ q)
           ++ " SET " ++ set_clause self values ++ (" FROM " ++ J) ++ " " ++ "WHERE ")
    with (front ++ " ") by (subst front; now rewrite !append_assoc).
  unfold strip. rewrite lstrip_clean by reflexivity.
  rewrite rstrip_append_blank by reflexivity.
  subst front.
  replace ("UPDATE " ++ BaseGrammar.wrap_table self (from__ q)
           ++ " SET " ++ set_clause self values ++ " FROM " ++ J ++ " WHERE")
    with (("UPDATE " ++ BaseGrammar.wrap_table self (from__ q)
           ++ " SET " ++ set_clause self values ++ " FROM " ++ J) ++ " WHERE")
    by (now rewrite !append_assoc).
  apply rstrip_append_clean; [discriminate | reflexivity].
Qed.

Lemma postgres_update_dangling_where_witness :
  yields (PostgresQueryGrammar.compile_update (PostgresQueryGrammar.grammar "")
            fixed_renderers bare_join_query [("a", VInt 1)])
         ("UPDATE " ++ dquote ++ "t" ++ dquote ++ " SET " ++ dquote ++ "a" ++ dquote
          ++ " = %s FROM " ++ dquote ++ "u" ++ dquote ++ " WHERE").
Proof.
  destruct (postgres_update_dangling_where (PostgresQueryGrammar.grammar "")
              fixed_renderers bare_join_query [("a", VInt 1)] "") as [_ H].
  - discriminate.
  - reflexivity.
  - intros b. eexists. reflexivity.
  - reflexivity.
  - exact H.
Defined.

(** ** More on the MySQL statements *)

(** X13: a MySQL delete with joins compiles its where clause before its join
    clause: the values of the wheres are bound before the values of the
    joins, while in the text the join clause stands before the where
    clause. *)
Theorem mysql_delete_binds_wheres_before_joins
    (self : Grammar) (super : QueryGrammar.Inherited) (q : QueryBuilder)
    (w j : string) (ws js b : list value) :
  is_list (wheres q) = true ->
  joins q <> [] ->
  orders q = [] ->
  nonzero (limit_ q) = false ->
  (forall b0, QueryGrammar._compile_wheres super q b0 = inr (w, (b0 ++ ws)%list)) ->
  (forall b0, QueryGrammar._compile_joins super q (joins q) b0
              = inr (j, (b0 ++ js)%list)) ->
  MySQLQueryGrammar.compile_delete self super q b
  = inr (strip ("DELETE " ++ BaseGrammar.wrap_table self (from__ q) ++ " FROM "
                ++ BaseGrammar.wrap_table self (from__ q) ++ " " ++ j ++ " " ++ w),
         (b ++ ws ++ js)%list).
Proof.
  intros Hl Hj Ho Hlim Hw Hjoin.
  unfold MySQLQueryGrammar.compile_delete, bind.
  rewrite Hl, Hw, Ho, Hlim.
  destruct (joins q) as [|j0 js0] eqn:Ej; [congruence|].
  cbn [nonempty]. rewrite Hjoin. unfold ret.
  now rewrite <- app_assoc.
Qed.

Lemma mysql_delete_binds_wheres_before_joins_witness :
  MySQLQueryGrammar.compile_delete (MySQLQueryGrammar.grammar "")
    binding_renderers joined_query []
  = inr ("DELETE `t` FROM `t` INNER JOIN `u` ON `u`.`k` = %s WHERE `id` = %s",
         [VInt 5; VStr "x"]).
Proof.
  apply (mysql_delete_binds_wheres_before_joins (MySQLQueryGrammar.grammar "")
           binding_renderers joined_query "WHERE `id` = %s"
           "INNER JOIN `u` ON `u`.`k` = %s" [VInt 5] [VStr "x"] []);
    try reflexivity; discriminate.
Defined.

(** X14: the MySQL update is the inherited update followed by the orders
    fragment and the limit fragment when the statement has them, stripped on
    the right: it never ends in white space, whatever the inherited
    renderers return. *)
Theorem mysql_compile_update_rstripped
    (super : QueryGrammar.Inherited) (q : QueryBuilder) (values : dict)
    (u o l : string) :
  yields (QueryGrammar.compile_update super q values) u ->
  (nonempty (orders q) = true ->
     yields (QueryGrammar._compile_orders super q (orders q)) o) ->
  (nonzero (limit_ q) = true ->
     yields (QueryGrammar._compile_limit super q (limit_ q)) l) ->
  let tail := (if nonempty (orders q) then " " ++ o else "")
              ++ (if nonzero (limit_ q) then " " ++ l else "") in
  yields (MySQLQueryGrammar.compile_update super q values) (rstrip (u ++ tail)) /\
  space_opt (last_char (rstrip (u ++ tail))) = false.
Proof.
  intros Hu Ho Hl tail. split; [|apply rstrip_last].
  unfold MySQLQueryGrammar.compile_update.
  apply yields_bind with (a := u); [assumption|].
  set (ord := if nonempty (orders q) then " " ++ o else "").
  set (lim := if nonzero (limit_ q) then " " ++ l else "").
  subst tail. fold ord lim. rewrite <- (append_assoc u ord lim).
  apply yields_bind with (a := u ++ ord).
  { subst ord. destruct (nonempty (orders q)).
    - apply yields_bind with (a := o); [now apply Ho | apply yields_ret].
    - rewrite append_nil_r. apply yields_ret. }
  apply yields_bind with (a := (u ++ ord) ++ lim); [|apply yields_ret].
  subst lim. destruct (nonzero (limit_ q)).
  - apply yields_bind with (a := l); [now apply Hl | apply yields_ret].
  - rewrite append_nil_r. apply yields_ret.
Qed.

Lemma mysql_compile_update_rstripped_witness :
  yields (MySQLQueryGrammar.compile_update binding_renderers union_query
            [("a", VInt 1)])
         "UPDATE `t` SET `a` = %s   ORDER BY `id` ASC LIMIT 1"
  /\ yields (MySQLQueryGrammar.compile_update binding_renderers plain_query
               [("a", VInt 1)])
            "UPDATE `t` SET `a` = %s".
Proof.
  split.
  - destruct (mysql_compile_update_rstripped binding_renderers union_query
                [("a", VInt 1)] "UPDATE `t` SET `a` = %s  " "ORDER BY `id` ASC"
                "LIMIT 1") as [H _].
    + intros b. eexists. reflexivity.
    + intros _ b. eexists. reflexivity.
    + intros _ b. eexists. reflexivity.
    + exact H.
  - destruct (mysql_compile_update_rstripped binding_renderers plain_query
                [("a", VInt 1)] "UPDATE `t` SET `a` = %s  " "" "") as [H _].
    + intros b. eexists. reflexivity.
    + discriminate.
    + discriminate.
    + exact H.
Defined.

(** X15: on a statement without unions the MySQL select is the inherited
    select, with the same text, bindings and exceptions; with unions the
    inherited text is put in parentheses and the compiled unions follow
    after a blank, the select being compiled first. *)
Theorem mysql_compile_select_unions
    (super : QueryGrammar.Inherited) (q : QueryBuilder) (b : list value) :
  (unions q = [] ->
     MySQLQueryGrammar.compile_select super q b
     = QueryGrammar.compile_select super q b) /\
  (unions q <> [] ->
     forall s b1 u b2,
       QueryGrammar.compile_select super q b = inr (s, b1) ->
       QueryGrammar._compile_unions super q b1 = inr (u, b2) ->
       MySQLQueryGrammar.compile_select super q b
       = inr ("(" ++ s ++ ") " ++ u, b2)).
Proof.
  unfold MySQLQueryGrammar.compile_select, bind. split.
  - intros ->. cbn [nonempty].
    destruct (QueryGrammar.compile_select super q b) as [e|[s b1]]; reflexivity.
  - intros ne s b1 u b2 Hs Hu. rewrite Hs.
    destruct (unions q); [congruence|]. cbn [nonempty]. now rewrite Hu.
Qed.

Lemma mysql_compile_select_unions_witness :
  MySQLQueryGrammar.compile_select fixed_renderers plain_query []
  = inr ("SELECT * FROM `t`", [])
  /\ MySQLQueryGrammar.compile_select fixed_renderers union_query []
     = inr ("(SELECT * FROM `t`) UNION (SELECT * FROM `u`)", []).
Proof.
  destruct (mysql_compile_select_unions fixed_renderers plain_query []) as [H _].
  destruct (mysql_compile_select_unions fixed_renderers union_query []) as [_ H'].
  split.
  - rewrite H; reflexivity.
  - apply (H' ltac:(discriminate) "SELECT * FROM `t`" []
              "UNION (SELECT * FROM `u`)" []); reflexivity.
Defined.

(** ** More on the Postgres schema grammar *)

(** X16: every tag of the serial list has its type method, and a column of
    such a type is declared PRIMARY KEY exactly when its type text is one of
    the SERIAL types; a column of any other type never gets the inline
    PRIMARY KEY. *)
Theorem postgres_serial_types_are_primary_keys
    (bp : Blueprint) (c : Column.Fluent) (tag : string)
    (f : Column.Fluent -> string) :
  map fst serial_type_methods = PostgresSchemaGrammar._serials /\
  (In (tag, f) serial_type_methods -> Column.type c = tag ->
     (PostgresSchemaGrammar._modify_increment bp c = " PRIMARY KEY"
      <-> In (f c) serial_texts)) /\
  (~ In (Column.type c) PostgresSchemaGrammar._serials ->
     PostgresSchemaGrammar._modify_increment bp c = "").
Proof.
  split; [reflexivity|]. split.
  - intros Hin Htype. unfold PostgresSchemaGrammar._modify_increment.
    rewrite Htype.
    cbn in Hin.
    destruct Hin as [E|[E|[E|[E|[E|[]]]]]]; injection E as <- <-;
      cbn [contains existsb String.eqb Ascii.eqb Bool.eqb orb andb];
      unfold PostgresSchemaGrammar._type_big_integer,
        PostgresSchemaGrammar._type_integer,
        PostgresSchemaGrammar._type_medium_integer,
        PostgresSchemaGrammar._type_small_integer,
        PostgresSchemaGrammar._type_tiny_integer;
      destruct (truthy (Column.auto_increment c)); cbn; split;
        intros H; try discriminate; try tauto;
        repeat (destruct H as [H|H]; try discriminate); contradiction.
  - intros Hnot. unfold PostgresSchemaGrammar._modify_increment.
    destruct (contains _ _) eqn:E; [|reflexivity].
    apply contains_In in E. contradiction.
Qed.

Lemma postgres_serial_types_are_primary_keys_witness :
  let c := with_auto_increment (column_of "id" "big_integer") (VBool true) in
  let bp := {| get_table := "users"; get_columns := [c] |} in
  PostgresSchemaGrammar._modify_increment bp c = " PRIMARY KEY".
Proof.
  intros c bp.
  destruct (postgres_serial_types_are_primary_keys bp c "big_integer"
              PostgresSchemaGrammar._type_big_integer) as [_ [H _]].
  apply H; [now left | reflexivity | now left].
Defined.

(** X17: the default modifier is left out exactly when the default is
    [None], so a default that is [False], zero or the empty string keeps its
    DEFAULT clause; the nullable modifier goes by truth value, and is NOT
    NULL for every falsy value. *)
Theorem postgres_modify_default_and_nullable
    (gdv : value -> string) (bp : Blueprint) (c : Column.Fluent) :
  (PostgresSchemaGrammar._modify_default gdv bp c = ""
   <-> Column.default c = VNone) /\
  (Column.default c <> VNone ->
     PostgresSchemaGrammar._modify_default gdv bp c
     = " DEFAULT " ++ gdv (Column.default c)) /\
  (PostgresSchemaGrammar._modify_nullable bp c = " NULL"
   <-> truthy (Column.nullable c) = true) /\
  (PostgresSchemaGrammar._modify_nullable bp c = " NOT NULL"
   <-> truthy (Column.nullable c) = false).
Proof.
  unfold PostgresSchemaGrammar._modify_default,
    PostgresSchemaGrammar._modify_nullable.
  repeat split.
  - destruct (Column.default c); [reflexivity | discriminate..].
  - now intros ->.
  - destruct (Column.default c); [congruence | reflexivity..].
  - destruct (truthy _); [reflexivity | discriminate].
  - now intros ->.
  - destruct (truthy _); [discriminate | reflexivity].
  - now intros ->.
Qed.

Lemma postgres_modify_default_and_nullable_witness :
  let c := with_default (column_of "active" "boolean") (VBool false) in
  let bp := {| get_table := "users"; get_columns := [c] |} in
  PostgresSchemaGrammar._modify_default (fun _ => "'0'") bp c = " DEFAULT '0'"
  /\ PostgresSchemaGrammar._modify_nullable bp c = " NOT NULL".
Proof.
  intros c bp.
  destruct (postgres_modify_default_and_nullable (fun _ => "'0'") bp c)
    as [_ [H1 [_ H2]]].
  split; [apply H1; discriminate | apply H2; reflexivity].
Defined.

Lemma lower_code_point_idempotent (c : ascii) :
  lower_code_point (lower_code_point c) = lower_code_point c.
Proof. destruct c as [[] [] [] [] [] [] [] []]; reflexivity. Qed.

Lemma str_lower_idempotent (s : string) : str_lower (str_lower s) = str_lower s.
Proof.
  induction s as [|c s IH]; [reflexivity|].
  cbn [str_lower]. now rewrite lower_code_point_idempotent, IH.
Qed.

(** X18: [_get_dbal_column_type] does not tell letter cases apart: a type
    name and its lower-case form give the same result; enum in any letter
    case is string, and every other name reaches the inherited method in
    lower case. *)
Theorem postgres_dbal_column_type_ignores_case
    (inherited : string -> string) (t : string) :
  PostgresSchemaGrammar._get_dbal_column_type inherited (str_lower t)
  = PostgresSchemaGrammar._get_dbal_column_type inherited t /\
  (str_lower t = "enum" ->
     PostgresSchemaGrammar._get_dbal_column_type inherited t = "string") /\
  (str_lower t <> "enum" ->
     PostgresSchemaGrammar._get_dbal_column_type inherited t
     = inherited (str_lower t)).
Proof.
  unfold PostgresSchemaGrammar._get_dbal_column_type.
  rewrite str_lower_idempotent. split; [reflexivity|]. split.
  - now intros ->.
  - intros ne. destruct (String.eqb_spec (str_lower t) "enum"); [contradiction|].
    reflexivity.
Qed.

Lemma postgres_dbal_column_type_ignores_case_witness :
  PostgresSchemaGrammar._get_dbal_column_type (fun t => t) "Enum" = "string"
  /\ PostgresSchemaGrammar._get_dbal_column_type (fun t => t) "INTEGER" = "integer".
Proof.
  destruct (postgres_dbal_column_type_ignores_case (fun t => t) "Enum")
    as [_ [H _]].
  destruct (postgres_dbal_column_type_ignores_case (fun t => t) "INTEGER")
    as [_ [_ H']].
  split; [apply H; reflexivity | rewrite H'; [reflexivity | discriminate]].
Defined.
